(** * DataMaps loader: the [DataMap] controller of resources/loader/map.js

    A shallow embedding of the client-side map controller: the coordinate
    reference system derived from the configured corners, the native-to-render
    transform and its inverse in the cursor display, marker ingestion, and
    background selection.

    JavaScript state is threaded explicitly: a method body is a function
    from the fields of the [DataMap] object to a completion and the fields it
    leaves.  An exception is a completion that keeps the assignments made
    before it, as an uncaught [TypeError] does in the browser.  The
    collaborators the controller drives (the Leaflet map, the layer manager,
    the storage driver, the callbacks of its caller) appear as far as map.js
    observes or changes them.  The legend, the DOM controls and the
    formatting of the coordinate label are left out. *)

From Stdlib Require Import QArith Qcanon ZArith.
From stdpp Require Import base numbers strings list gmap.

Open Scope Z_scope.

(** ** JavaScript numbers

    Numbers are modelled with exact rational arithmetic extended with the
    three IEEE 754 special values a division can produce.  Rounding, overflow
    and the sign of zero are not modelled: every zero behaves as [+0].  The
    properties below are therefore about comparisons, about which value is
    selected, and about results a double computes exactly; none of them
    bounds a rounding error. *)
Module JS.

Inductive number : Type :=
| Fin (q : Qc)
| PosInf
| NegInf
| NaN.

Definition of_Z (z : Z) : number := Fin (Q2Qc (inject_Z z)).
Definition ratio (n : Z) (d : positive) : number := Fin (Q2Qc (n # d)).

Definition inf_of (positive : bool) : number :=
  if positive then PosInf else NegInf.

(** [Infinity * q] and [q * Infinity] for a finite [q]. *)
Definition scale_inf (positive : bool) (q : Qc) : number :=
  match (q ?= 0)%Qc with
  | Eq => NaN
  | Gt => inf_of positive
  | Lt => inf_of (negb positive)
  end.

Definition add (a b : number) : number :=
  match a, b with
  | NaN, _ | _, NaN => NaN
  | Fin x, Fin y => Fin (x + y)
  | PosInf, NegInf | NegInf, PosInf => NaN
  | PosInf, _ | _, PosInf => PosInf
  | NegInf, _ | _, NegInf => NegInf
  end.

Definition sub (a b : number) : number :=
  match a, b with
  | NaN, _ | _, NaN => NaN
  | Fin x, Fin y => Fin (x - y)
  | PosInf, PosInf | NegInf, NegInf => NaN
  | PosInf, _ | _, NegInf => PosInf
  | NegInf, _ | _, PosInf => NegInf
  end.

Definition mul (a b : number) : number :=
  match a, b with
  | NaN, _ | _, NaN => NaN
  | Fin x, Fin y => Fin (x * y)
  | Fin x, PosInf | PosInf, Fin x => scale_inf true x
  | Fin x, NegInf | NegInf, Fin x => scale_inf false x
  | PosInf, PosInf | NegInf, NegInf => PosInf
  | PosInf, NegInf | NegInf, PosInf => NegInf
  end.

Definition div (a b : number) : number :=
  match a, b with
  | NaN, _ | _, NaN => NaN
  | Fin x, Fin y =>
      match (y ?= 0)%Qc with
      | Eq => match (x ?= 0)%Qc with
              | Eq => NaN
              | Gt => PosInf
              | Lt => NegInf
              end
      | _ => Fin (x / y)
      end
  | Fin _, (PosInf | NegInf) => Fin 0
  | PosInf, Fin y => match (y ?= 0)%Qc with Lt => NegInf | _ => PosInf end
  | NegInf, Fin y => match (y ?= 0)%Qc with Lt => PosInf | _ => NegInf end
  | (PosInf | NegInf), (PosInf | NegInf) => NaN
  end.

(** [a < b]; any comparison with [NaN] is false. *)
Definition ltb (a b : number) : bool :=
  match a, b with
  | NaN, _ | _, NaN => false
  | Fin x, Fin y => match (x ?= y)%Qc with Lt => true | _ => false end
  | _, NegInf => false
  | NegInf, _ => true
  | PosInf, _ => false
  | Fin _, PosInf => true
  end.

(** [a <= b]. *)
Definition leb (a b : number) : bool :=
  match a, b with
  | NaN, _ | _, NaN => false
  | Fin x, Fin y => match (x ?= y)%Qc with Gt => false | _ => true end
  | NegInf, _ => true
  | _, PosInf => true
  | _, NegInf => false
  | PosInf, _ => false
  end.

(** [a >= b] is [b <= a] (both false on [NaN]). *)
Definition geb (a b : number) : bool := leb b a.

(** [Math.max( a, b )]. *)
Definition Math_max (a b : number) : number :=
  match a, b with
  | NaN, _ | _, NaN => NaN
  | _, _ => if ltb a b then b else a
  end.

(** Truthiness of a number: [0] and [NaN] are falsy. *)
Definition truthy (a : number) : bool :=
  match a with
  | NaN => false
  | Fin x => match (x ?= 0)%Qc with Eq => false | _ => true end
  | _ => true
  end.

(** Values a data slot or a key can hold. *)
Inductive value : Type :=
| VString (s : string)
| VNumber (n : number).

(** [v === s] for a string [s]: no coercion, so a number never equals it. *)
Definition strict_eq_string (v : value) (s : string) : bool :=
  match v with
  | VString t => bool_decide (t = s)
  | VNumber _ => false
  end.

Definition space : Ascii.ascii := Ascii.ascii_of_nat 32.
Definition pipe : Ascii.ascii := Ascii.ascii_of_nat 124.

(** [s.split( sep )] for a one-character separator: always at least one
    piece, empty pieces kept. *)
Fixpoint split (sep : Ascii.ascii) (s : string) : list string :=
  match s with
  | EmptyString => [EmptyString]
  | String c rest =>
      if Ascii.eqb c sep then EmptyString :: split sep rest
      else match split sep rest with
           | piece :: pieces => String c piece :: pieces
           | [] => [String c EmptyString]
           end
  end.

End JS.

Import JS.

Declare Scope js_scope.
Delimit Scope js_scope with js.
Infix "+" := JS.add : js_scope.
Infix "-" := JS.sub : js_scope.
Infix "*" := JS.mul : js_scope.
Infix "/" := JS.div : js_scope.
Infix "<?" := JS.ltb : js_scope.
Infix "<=?" := JS.leb : js_scope.
Infix ">=?" := JS.geb (at level 70) : js_scope.
Notation "# z" := (JS.of_Z z) (at level 5, format "# z") : js_scope.

(** ** Data model *)

(** A two-element array [[ a, b ]]; index 0 is the first component. *)
Definition Point : Type := number * number.
Definition Box : Type := Point * Point.

Definition pt (a b : Z) : Point := (JS.of_Z a, JS.of_Z b).

(** [const CRSOrigin = { TopLeft: 1, BottomLeft: 2 }] *)
Inductive CRSOrigin : Type := TopLeft | BottomLeft.

(** A layer object of the rendering surface, known by its Leaflet stamp. *)
Definition LayerHandle : Type := nat.

(** A background after [buildLeafletMap] prepared it: [at] defaulted to the
    coordinate space and [layers] filled in. *)
Record Background : Type := {
  bg_name : string;
  bg_at : Box;
  bg_layers : list LayerHandle
}.

Record Group : Type := {
  markerIcon : option string;
  canDismiss : bool;
  size : number;
  extraMinZoomSize : option number;
  fillColor : option string;
  strokeColor : option string;
  strokeWidth : option number
}.

Record Config : Type := {
  crs : Box;
  backgrounds : list Background;
  groups : gmap string Group;
  layerIds : list string
}.

(** The optional third element of a placement. *)
Record Slots : Type := {
  uid : option JS.value;
  label : option string;
  desc : option string;
  image : option string;
  article : option string
}.

(** A placement [[ lat, lon, slots? ]] of the marker payload. *)
Record Instance : Type := {
  lat : number;
  lon : number;
  slots : option Slots
}.

(** The payload [data.query.markers]: an object from layer-combination keys
    to placements, in the key order the [for ... in] loops visit. *)
Definition MarkerData : Type := list (string * list Instance).

Record Icon : Type := {
  iconUrl : string;
  iconSize : number
}.

Inductive MarkerOptions : Type :=
| IconMarker (icon : option Icon) (dismissed : bool)
| CircleMarker (baseRadius : number) (expandZoomInvEx : option number)
    (fill : option string) (fillOpacity : number)
    (color : option string) (weight : number).

(** A marker of the rendering surface, with the layer-combination key and the
    placement its popup closures capture. *)
Record LeafletMarker : Type := {
  m_position : Point;
  m_options : MarkerOptions;
  m_type : string;
  m_instance : Instance
}.

(** The Leaflet map: the layers on it, rearmost first. *)
Record LeafletMap : Type := {
  onMap : list LayerHandle
}.

(** Modelled from the spec: the layer manager of layerManager.js, which is
    not among the sources.  [register] is idempotent and creates an empty
    membership set for an unseen layer; [addMember] associates a marker with
    every layer of its space-delimited combination key. *)
Record MarkerLayerManager : Type := {
  lm_layers : gset string;
  lm_members : list (string * LeafletMarker)
}.

Definition lm_register (name : string) (lm : MarkerLayerManager) : MarkerLayerManager :=
  {| lm_layers := {[ name ]} ∪ lm_layers lm; lm_members := lm_members lm |}.

Definition lm_addMember (key : string) (m : LeafletMarker) (lm : MarkerLayerManager)
  : MarkerLayerManager :=
  {| lm_layers := lm_layers lm; lm_members := lm_members lm ++ [(key, m)] |}.

(** The markers associated with layer [name]. *)
Definition lm_membersOf (name : string) (lm : MarkerLayerManager) : list LeafletMarker :=
  snd <$> filter (λ km, name ∈ JS.split JS.space (fst km)) (lm_members lm).

(** Modelled from the spec: the per-map durable key/value store of
    storage.js ([get( key )], [set( key, value )]), which is not among the
    sources.  The only key map.js itself reads and writes is ['background'],
    whose value is the index of a background. *)
Definition MapStorage : Type := gmap string Z.

(** What the caller of [streamMarkersIn] observes. *)
Inductive Callback : Type := successCallback | errorCallback.

Record DataMap : Type := {
  id : string;
  config : Config;
  storage : MapStorage;
  layerManager : MarkerLayerManager;
  background : option Background;
  backgroundIndex : Z;
  dataSetFilters : option (list string);
  leaflet : option LeafletMap;
  leafletIcons : gmap string Icon;
  markerIdToAutoOpen : option string;
  crsOrigin : CRSOrigin;
  crsScaleY : number;
  crsScaleX : number;
  (* effects on collaborators *)
  openedPopups : list LeafletMarker;      (* [marker.openPopup()] calls *)
  callbacks : list Callback;              (* callbacks invoked so far *)
  timers : list MarkerData                (* pending [waitForLeaflet] polls *)
}.

(** Field assignments [this.f = v]. *)
Definition set_storage (v : MapStorage) (s : DataMap) : DataMap :=
  {| id := id s; config := config s; storage := v;
     layerManager := layerManager s; background := background s;
     backgroundIndex := backgroundIndex s; dataSetFilters := dataSetFilters s;
     leaflet := leaflet s; leafletIcons := leafletIcons s;
     markerIdToAutoOpen := markerIdToAutoOpen s; crsOrigin := crsOrigin s;
     crsScaleY := crsScaleY s; crsScaleX := crsScaleX s;
     openedPopups := openedPopups s; callbacks := callbacks s;
     timers := timers s |}.

Definition set_layerManager (v : MarkerLayerManager) (s : DataMap) : DataMap :=
  {| id := id s; config := config s; storage := storage s;
     layerManager := v; background := background s;
     backgroundIndex := backgroundIndex s; dataSetFilters := dataSetFilters s;
     leaflet := leaflet s; leafletIcons := leafletIcons s;
     markerIdToAutoOpen := markerIdToAutoOpen s; crsOrigin := crsOrigin s;
     crsScaleY := crsScaleY s; crsScaleX := crsScaleX s;
     openedPopups := openedPopups s; callbacks := callbacks s;
     timers := timers s |}.

Definition set_background (v : option Background) (s : DataMap) : DataMap :=
  {| id := id s; config := config s; storage := storage s;
     layerManager := layerManager s; background := v;
     backgroundIndex := backgroundIndex s; dataSetFilters := dataSetFilters s;
     leaflet := leaflet s; leafletIcons := leafletIcons s;
     markerIdToAutoOpen := markerIdToAutoOpen s; crsOrigin := crsOrigin s;
     crsScaleY := crsScaleY s; crsScaleX := crsScaleX s;
     openedPopups := openedPopups s; callbacks := callbacks s;
     timers := timers s |}.

Definition set_backgroundIndex (v : Z) (s : DataMap) : DataMap :=
  {| id := id s; config := config s; storage := storage s;
     layerManager := layerManager s; background := background s;
     backgroundIndex := v; dataSetFilters := dataSetFilters s;
     leaflet := leaflet s; leafletIcons := leafletIcons s;
     markerIdToAutoOpen := markerIdToAutoOpen s; crsOrigin := crsOrigin s;
     crsScaleY := crsScaleY s; crsScaleX := crsScaleX s;
     openedPopups := openedPopups s; callbacks := callbacks s;
     timers := timers s |}.

Definition set_leaflet (v : option LeafletMap) (s : DataMap) : DataMap :=
  {| id := id s; config := config s; storage := storage s;
     layerManager := layerManager s; background := background s;
     backgroundIndex := backgroundIndex s; dataSetFilters := dataSetFilters s;
     leaflet := v; leafletIcons := leafletIcons s;
     markerIdToAutoOpen := markerIdToAutoOpen s; crsOrigin := crsOrigin s;
     crsScaleY := crsScaleY s; crsScaleX := crsScaleX s;
     openedPopups := openedPopups s; callbacks := callbacks s;
     timers := timers s |}.

Definition set_openedPopups (v : list LeafletMarker) (s : DataMap) : DataMap :=
  {| id := id s; config := config s; storage := storage s;
     layerManager := layerManager s; background := background s;
     backgroundIndex := backgroundIndex s; dataSetFilters := dataSetFilters s;
     leaflet := leaflet s; leafletIcons := leafletIcons s;
     markerIdToAutoOpen := markerIdToAutoOpen s; crsOrigin := crsOrigin s;
     crsScaleY := crsScaleY s; crsScaleX := crsScaleX s;
     openedPopups := v; callbacks := callbacks s;
     timers := timers s |}.

Definition set_callbacks (v : list Callback) (s : DataMap) : DataMap :=
  {| id := id s; config := config s; storage := storage s;
     layerManager := layerManager s; background := background s;
     backgroundIndex := backgroundIndex s; dataSetFilters := dataSetFilters s;
     leaflet := leaflet s; leafletIcons := leafletIcons s;
     markerIdToAutoOpen := markerIdToAutoOpen s; crsOrigin := crsOrigin s;
     crsScaleY := crsScaleY s; crsScaleX := crsScaleX s;
     openedPopups := openedPopups s; callbacks := v;
     timers := timers s |}.

Definition set_timers (v : list MarkerData) (s : DataMap) : DataMap :=
  {| id := id s; config := config s; storage := storage s;
     layerManager := layerManager s; background := background s;
     backgroundIndex := backgroundIndex s; dataSetFilters := dataSetFilters s;
     leaflet := leaflet s; leafletIcons := leafletIcons s;
     markerIdToAutoOpen := markerIdToAutoOpen s; crsOrigin := crsOrigin s;
     crsScaleY := crsScaleY s; crsScaleX := crsScaleX s;
     openedPopups := openedPopups s; callbacks := callbacks s;
     timers := v |}.

(** ** Statements with effects

    A method body is a function from the map's state to a completion and the
    state it leaves.  A [throw] stops the body; the assignments made before
    it stay. *)
Inductive JSError : Type := TypeError.

Inductive Completion (A : Type) : Type :=
| Normal (a : A)
| Throw (e : JSError).
Arguments Normal {A} a.
Arguments Throw {A} e.

Definition Action (A : Type) : Type := DataMap → Completion A * DataMap.

Definition ret {A} (a : A) : Action A := λ s, (Normal a, s).
Definition throw {A} (e : JSError) : Action A := λ s, (Throw e, s).
Definition bind {A B} (c : Action A) (k : A → Action B) : Action B :=
  λ s, match c s with
       | (Normal a, s') => k a s'
       | (Throw e, s') => (Throw e, s')
       end.
Definition get : Action DataMap := λ s, (Normal s, s).
Definition modify (f : DataMap → DataMap) : Action unit := λ s, (Normal tt, f s).

Notation "x <- c1 ;; c2" := (bind c1 (λ x, c2))
  (at level 100, c1 at next level, right associativity).
Notation "c1 ;; c2" := (bind c1 (λ _, c2))
  (at level 100, right associativity).

(** [l.forEach( f )] *)
Fixpoint forEach {A} (f : A → Action unit) (l : list A) : Action unit :=
  match l with
  | [] => ret tt
  | x :: rest => f x ;; forEach f rest
  end.

(** The state an action leaves, whether it completed or threw. *)
Definition exec {A} (c : Action A) (s : DataMap) : DataMap := (c s).2.

(** ** Construction (map.js, lines 16-58) *)

(** [new DataMap( id, $root, config )].  [filterGroups] is what
    [$root.data( 'filter-groups' )] yields when that is a string, or nothing
    when the attribute is missing.  jQuery converts an attribute that reads
    as [true], [false], [null], a number or a JSON object or array to that
    value before line 30 sees it; such attributes are outside this
    definition.  [urlMarker] is the [marker] parameter of the query string
    and [stored] what the storage driver finds in durable storage. *)
Definition new_DataMap (id : string) (filterGroups : option string)
    (urlMarker : option string) (stored : MapStorage) (config : Config) : DataMap :=
  {| id := id;
     config := config;
     storage := stored;
     layerManager := {| lm_layers := ∅; lm_members := [] |};
     background := None;
     backgroundIndex := 0;
     dataSetFilters :=
       match filterGroups with
       | Some EmptyString | None => None
       | Some s => Some (JS.split JS.pipe s)
       end;
     leaflet := None;
     leafletIcons := ∅;
     markerIdToAutoOpen := urlMarker;
     crsOrigin :=
       if ((crs config).1.1 <? (crs config).2.1)%js && ((crs config).1.2 <? (crs config).2.2)%js
       then TopLeft else BottomLeft;
     crsScaleY := (#100 / JS.Math_max (crs config).1.1 (crs config).2.1)%js;
     crsScaleX := (#100 / JS.Math_max (crs config).1.2 (crs config).2.2)%js;
     openedPopups := [];
     callbacks := [];
     timers := [] |}.

(** ** Coordinate transform (map.js, lines 98-111) *)

Definition translatePoint (this : DataMap) (point : Point) : Point :=
  match crsOrigin this with
  | TopLeft =>
      ( (((crs (config this)).2.1 - point.1) * crsScaleY this)%js,
        (point.2 * crsScaleX this)%js )
  | BottomLeft =>
      ( (point.1 * crsScaleY this)%js, (point.2 * crsScaleX this)%js )
  end.

Definition translateBox (this : DataMap) (box : Box) : Box :=
  match crsOrigin this with
  | TopLeft =>
      ( ( (((crs (config this)).2.1 - box.1.1) * crsScaleY this)%js,
          (box.1.2 * crsScaleX this)%js ),
        ( (((crs (config this)).2.1 - box.2.1) * crsScaleY this)%js,
          (box.2.2 * crsScaleX this)%js ) )
  | BottomLeft =>
      ( ( (box.1.1 * crsScaleY this)%js, (box.1.2 * crsScaleX this)%js ),
        ( (box.2.1 * crsScaleY this)%js, (box.2.1 * crsScaleX this)%js ) )
  end.

(** ** Coordinate-under-cursor display (map.js, lines 379-389) *)

(** The conversion in the body of the [mousemove] handler, lines 383-386. *)
Definition renderToNative (this : DataMap) (latlng : Point) : Point :=
  let lat := (latlng.1 / crsScaleY this)%js in
  let lon := (latlng.2 / crsScaleX this)%js in
  let lat := match crsOrigin this with
             | TopLeft => ((crs (config this)).2.1 - lat)%js
             | BottomLeft => lat
             end in
  (lat, lon).

(** The handler: the pair handed to [getCoordLabel], or nothing when the
    cursor is outside the guarded range. *)
Definition onMouseMove (this : DataMap) (latlng : Point) : option Point :=
  if (latlng.1 >=? #(-5))%js && (latlng.1 <=? #105)%js
     && (latlng.2 >=? #(-5))%js && (latlng.2 <=? #105)%js
  then Some (renderToNative this latlng)
  else None.

(** ** Marker ingestion (map.js, lines 125-219) *)

(** Truthiness of an optional string: [undefined] and [''] are falsy. *)
Definition truthy_string (o : option string) : bool :=
  match o with
  | Some EmptyString | None => false
  | Some _ => true
  end.

(** The answer of the data-fetch collaborator to [mwApi.get( query )]: the
    request is rejected, or it resolves to [data], of which the handlers read
    [data.error] and [data.query.markers]. *)
Inductive ApiResult : Type :=
| Rejected
| Resolved (error : bool) (markers : MarkerData).

(** storage.js is not among the sources; the two marker methods of the
    storage driver that map.js calls are an interface.  [getMarkerKey]
    derives the key of a placement, [isDismissed] reads the stored flags. *)
Class StorageDriver : Type := {
  getMarkerKey : string → Instance → JS.value;
  isDismissed : MapStorage → string → Instance → bool
}.

(** The names every plain object answers to without listing them: the
    members of [Object.prototype]. *)
Definition objectPrototypeNames : list string :=
  [ "constructor"; "hasOwnProperty"; "isPrototypeOf"; "propertyIsEnumerable";
    "toLocaleString"; "toString"; "valueOf"; "__proto__";
    "__defineGetter__"; "__defineSetter__"; "__lookupGetter__";
    "__lookupSetter__" ].

(** What line 148 finds under such a name when the configuration does not
    list it: a function ([Object.prototype] itself for [__proto__]), on
    which every property a group has reads [undefined]; [undefined / 2] is
    [NaN]. *)
Definition inheritedMember : Group :=
  {| markerIcon := None; canDismiss := false; size := NaN;
     extraMinZoomSize := None; fillColor := None; strokeColor := None;
     strokeWidth := None |}.

(** [this.config.groups[ groupName ]].  The groups are a plain object: the
    lookup finds the configured group of that name, else the member every
    object inherits under that name, else [undefined]. *)
Definition lookupGroup (config : Config) (groupName : string) : option Group :=
  match groups config !! groupName with
  | Some group => Some group
  | None =>
      if bool_decide (groupName ∈ objectPrototypeNames)
      then Some inheritedMember else None
  end.

Section Loader.

Context {driver : StorageDriver}.

Definition onMarkerReady (type : string) (group : Group) (instance : Instance)
    (marker : LeafletMarker) : Action unit :=
  this <- get ;;
  match markerIdToAutoOpen this with
  | Some requested =>
      if JS.strict_eq_string
           (match slots instance with
            | Some s => match uid s with
                        | Some u => u
                        | None => getMarkerKey type instance
                        end
            | None => getMarkerKey type instance
            end)
           requested
      then modify (λ s, set_openedPopups (openedPopups s ++ [marker]) s)
      else ret tt
  | None => ret tt
  end.

(** Lines 153-173: the position and the construction of the marker, icon or
    circle by [group.markerIcon]. *)
Definition constructMarker (this : DataMap) (markerType groupName : string)
    (group : Group) (instance : Instance) : LeafletMarker :=
  let position := translatePoint this (lat instance, lon instance) in
  {| m_position := position;
     m_options :=
       if truthy_string (markerIcon group)
       then (* Fancy icon marker *)
         IconMarker (leafletIcons this !! groupName)
           (if canDismiss group
            then isDismissed (storage this) markerType instance
            else false)
       else (* Circular marker *)
         CircleMarker (size group / #2)%js (extraMinZoomSize group)
           (fillColor group) (JS.ratio 7 10)
           (if truthy_string (strokeColor group)
            then strokeColor group else fillColor group)
           (match strokeWidth group with
            | Some w => if JS.truthy w then w else (#1)%js
            | None => (#1)%js
            end);
     m_type := markerType;
     m_instance := instance |}.

(** The body of [placements.forEach( instance => ... )], lines 152-191.
    [group] is [this.config.groups[groupName]], [undefined] where the lookup
    finds nothing, on which reading [group.markerIcon] throws. *)
Definition placeMarker (markerType groupName : string) (group : option Group)
    (instance : Instance) : Action unit :=
  this <- get ;;
  match group with
  | None => throw TypeError
  | Some group =>
      let leafletMarker := constructMarker this markerType groupName group instance in
      (* Add marker to the layer *)
      modify (λ s, set_layerManager
                     (lm_addMember markerType leafletMarker (layerManager s)) s) ;;
      onMarkerReady markerType group instance leafletMarker
  end.

Definition instantiateMarkers (data : MarkerData) : Action unit :=
  (* Register all layers in this package *)
  forEach (λ entry : string * list Instance,
    forEach (λ name, modify (λ s, set_layerManager
                                    (lm_register name (layerManager s)) s))
            (JS.split JS.space entry.1)) data ;;
  (* Unpack markers *)
  forEach (λ entry : string * list Instance,
    let markerType := entry.1 in
    let layers := JS.split JS.space markerType in
    let groupName := default EmptyString (head layers) in
    this <- get ;;
    let group := lookupGroup (config this) groupName in
    let placements := entry.2 in
    forEach (placeMarker markerType groupName group) placements) data.

(** The callback [streamMarkersIn] hands to [waitForLeaflet], lines 212-215. *)
Definition ingest (markers : MarkerData) : Action unit :=
  instantiateMarkers markers ;;
  modify (λ s, set_callbacks (callbacks s ++ [successCallback]) s).

(** [waitForLeaflet( callback )] for the ingestion callback: run it when the
    Leaflet map exists, else leave a 25 ms timer that polls again. *)
Definition waitForLeaflet (markers : MarkerData) : Action unit :=
  this <- get ;;
  match leaflet this with
  | None => modify (λ s, set_timers (timers s ++ [markers]) s)
  | Some _ => ingest markers
  end.

(** The oldest pending timer fires. *)
Definition timerFires : Action unit :=
  this <- get ;;
  match timers this with
  | [] => ret tt
  | markers :: rest => modify (set_timers rest) ;; waitForLeaflet markers
  end.

(** [streamMarkersIn( pageName, version, filter, successCallback,
    errorCallback )], from the moment the request settles.  The three first
    arguments only shape the query. *)
Definition streamMarkersIn (response : ApiResult) : Action unit :=
  match response with
  | Resolved error markers =>
      if error
      then modify (λ s, set_callbacks (callbacks s ++ [errorCallback]) s)
      else waitForLeaflet markers
  | Rejected => modify (λ s, set_callbacks (callbacks s ++ [errorCallback]) s)
  end.

(** *** Vocabulary for stating what ingestion does *)

(** The stable key of a placement as the specification defines it: the
    explicit [uid] slot when present, otherwise the storage-derived key. *)
Definition stableKey (type : string) (instance : Instance) : JS.value :=
  match slots instance ≫= uid with
  | Some u => u
  | None => getMarkerKey type instance
  end.

(** The deep link names this placement: a [marker] parameter was present and
    equals the placement's stable key. *)
Definition deepLinked (this : DataMap) (type : string) (instance : Instance) : Prop :=
  ∃ requested, markerIdToAutoOpen this = Some requested
               ∧ stableKey type instance = VString requested.

Definition deepLinkedb (this : DataMap) (type : string) (instance : Instance) : bool :=
  match markerIdToAutoOpen this with
  | Some requested => JS.strict_eq_string (stableKey type instance) requested
  | None => false
  end.

(** [layers[0]] of a layer-combination key. *)
Definition groupNameOf (markerType : string) : string :=
  default EmptyString (head (JS.split JS.space markerType)).

(** The markers a bucket of the payload gives rise to. *)
Definition bucketMarkers (this : DataMap) (entry : string * list Instance)
  : list (string * LeafletMarker) :=
  match groups (config this) !! groupNameOf entry.1 with
  | Some group =>
      (λ instance,
         (entry.1, constructMarker this entry.1
                     (groupNameOf entry.1) group instance)) <$> entry.2
  | None => []
  end.

Definition payloadMarkers (this : DataMap) (data : MarkerData)
  : list (string * LeafletMarker) :=
  concat (bucketMarkers this <$> data).

(** The markers of a list of members that the deep link names. *)
Definition deepLinkedMarkers (this : DataMap) (members : list (string * LeafletMarker))
  : list LeafletMarker :=
  filter (λ m, deepLinkedb this (m_type m) (m_instance m)) (snd <$> members).

(** A bucket that cannot fail: it is empty or names a configured group. *)
Definition knownBucket (this : DataMap) (entry : string * list Instance) : Prop :=
  entry.2 = [] ∨ is_Some (groups (config this) !! groupNameOf entry.1).


(** The layer manager after the first loop registered the layers of every
    key. *)
Definition registerAll (data : MarkerData) (lm : MarkerLayerManager)
  : MarkerLayerManager :=
  foldl (λ lm name, lm_register name lm) lm
    (concat ((λ entry, JS.split JS.space entry.1) <$> data)).

(** The state in the course of an ingestion that started in [s]. *)
Definition ingesting (s : DataMap) (lm : MarkerLayerManager)
    (opened : list LeafletMarker) : DataMap :=
  set_openedPopups opened (set_layerManager lm s).

(** The bodies of the two loops of [instantiateMarkers]. *)
Definition registerBucket (entry : string * list Instance) : Action unit :=
  forEach (λ name, modify (λ s, set_layerManager
                                  (lm_register name (layerManager s)) s))
          (JS.split JS.space entry.1).

Definition unpackBucket (entry : string * list Instance) : Action unit :=
  this <- get ;;
  forEach (placeMarker entry.1 (groupNameOf entry.1)
             (lookupGroup (config this) (groupNameOf entry.1))) entry.2.

(** A bucket whose placements can be made into markers: it is empty, or
    line 148 finds something under the name of its group. *)
Definition placeableBucket (this : DataMap) (entry : string * list Instance) : Prop :=
  entry.2 = [] ∨ is_Some (lookupGroup (config this) (groupNameOf entry.1)).

End Loader.

(** ** Background selection (map.js, lines 225-246, 356, 393-406) *)

(** [x.remove()]: take the layer off the map it is on. *)
Definition layer_remove (x : LayerHandle) : Action unit :=
  modify (λ s, set_leaflet
                 ((λ m, {| onMap := filter (λ y, y ≠ x) (onMap m) |}) <$> leaflet s) s).

(** [x.addTo( this.leaflet ); x.bringToBack();].  Adding to a map that does
    not exist yet throws.  The layer is put rearmost at once, as Leaflet does
    on a map that has a view; on a map without one Leaflet keeps the layer
    among the layers of the map and moves nothing, so there the layers are
    the same and only their order can differ. *)
Definition layer_addToBack (x : LayerHandle) : Action unit :=
  this <- get ;;
  match leaflet this with
  | None => throw TypeError
  | Some m =>
      modify (set_leaflet (Some {| onMap := x :: filter (λ y, y ≠ x) (onMap m) |}))
  end.

Definition setCurrentBackground (index : Z) : Action unit :=
  (* Remove existing layers off the map *)
  this <- get ;;
  match background this with
  | Some bg => forEach layer_remove (bg_layers bg) ;; modify (set_background None)
  | None => ret tt
  end ;;
  (* Check if index is valid, and fall back to first otherwise *)
  this <- get ;;
  let index :=
    if (index <? 0) || (index >=? Z.of_nat (length (backgrounds (config this))))
    then 0 else index in
  (* Update state *)
  modify (set_background (backgrounds (config this) !! Z.to_nat index)) ;;
  modify (set_backgroundIndex index) ;;
  (* Push layers back onto the map *)
  this <- get ;;
  match background this with
  | None => throw TypeError
  | Some bg => forEach layer_addToBack (bg_layers bg)
  end.

(** Line 339: the Leaflet map comes into being. *)
Definition createLeaflet : Action unit :=
  modify (set_leaflet (Some {| onMap := [] |})).

(** Line 356: switch to the last chosen background or the first defined,
    [this.setCurrentBackground( this.storage.get( 'background' ) || 0 )]. *)
Definition restoreBackground : Action unit :=
  this <- get ;;
  setCurrentBackground (default 0 (storage this !! "background")).

(** Lines 396-400: the [change] handler of the background switch; [val] is
    the value of the selected option, which line 403 sets to the index of its
    background (a numeric string in the browser, here the integer it
    denotes). *)
Definition onBackgroundSwitchChange (val : Z) : Action unit :=
  setCurrentBackground val ;;
  (* Remember the choice *)
  modify (λ s, set_storage (<["background" := val]> (storage s)) s).

(** The index [setCurrentBackground] settles on. *)
Definition effectiveIndex (this : DataMap) (index : Z) : Z :=
  if (index <? 0) || (index >=? Z.of_nat (length (backgrounds (config this))))
  then 0 else index.

(** The render layers of the background in place before a call. *)
Definition currentLayers (this : DataMap) : list LayerHandle :=
  from_option bg_layers [] (background this).

(** The state of the background fields the rest of the loader relies on. *)
Definition backgroundConsistent (this : DataMap) : Prop :=
  background this = backgrounds (config this) !! Z.to_nat (backgroundIndex this)
  ∧ is_Some (background this)
  ∧ 0 ≤ backgroundIndex this < Z.of_nat (length (backgrounds (config this))).

(** *** The range check on whatever a caller passes

    JavaScript does not restrict the argument of [setCurrentBackground]: a
    caller can pass a number that is not an integer, [NaN], or nothing at
    all.  The fields of the state hold an integer index, so lines 233-239 are
    given here once more on their own, for any such argument. *)
Inductive Argument : Type :=
| ArgNumber (n : number)
| ArgUndefined.

(** The number a comparison converts its operand to: [undefined] becomes
    [NaN]. *)
Definition toNumber (a : Argument) : number :=
  match a with
  | ArgNumber n => n
  | ArgUndefined => NaN
  end.

(** [l[ index ]]: an element when the index is a whole number within the
    array, [undefined] under any other key. *)
Definition elementAt {A} (l : list A) (index : Argument) : option A :=
  match index with
  | ArgNumber (Fin q) =>
      if (Zpos (Qden q) =? 1) && (0 <=? Qnum q) then l !! Z.to_nat (Qnum q) else None
  | _ => None
  end.

(** Lines 233-239: the value the method stores in [this.backgroundIndex]
    and the background it stores in [this.background]. *)
Definition selectBackground (this : DataMap) (index : Argument)
  : Argument * option Background :=
  let index :=
    if (toNumber index <? #0)%js
       || (toNumber index >=? #(Z.of_nat (length (backgrounds (config this)))))%js
    then ArgNumber (#0)%js else index in
  (index, elementAt (backgrounds (config this)) index).

(** The consistency the loader relies on, read on the two stored values:
    the background is the configured one at the stored index, and the
    stored index is at least 0 and below the number of backgrounds. *)
Definition selectionConsistent (this : DataMap)
    (stored : Argument * option Background) : Prop :=
  stored.2 = elementAt (backgrounds (config this)) stored.1
  ∧ (#0 <=? toNumber stored.1)%js = true
  ∧ (toNumber stored.1 <? #(Z.of_nat (length (backgrounds (config this)))))%js = true.

(** ** The specification's reading of orientation detection

    Section 4.1 of the specification, word for word: both components of the
    first corner below the second corner's is top-left, both above is
    bottom-left, anything else is an [InvalidCoordinateSpace] error. *)
Inductive ConfigError : Type := InvalidCoordinateSpace.

Definition spec_orientation (c : Box) : ConfigError + CRSOrigin :=
  if (c.1.1 <? c.2.1)%js && (c.1.2 <? c.2.2)%js then inr TopLeft
  else if (c.2.1 <? c.1.1)%js && (c.2.2 <? c.1.2)%js then inr BottomLeft
  else inl InvalidCoordinateSpace.

(** ** Operations on a constructed map *)

(** An action preserves an observation [obs] of the state when [obs] reads
    the same before and after, whether the action completes or throws. *)
Definition preserves {X A} (obs : DataMap → X) (c : Action A) : Prop :=
  ∀ s, obs (c s).2 = obs s.

(** The parameters of the coordinate transform. *)
Definition crsParameters (this : DataMap) : CRSOrigin * number * number :=
  (crsOrigin this, crsScaleY this, crsScaleX this).

(** The operations on a map after its construction: the events the loader
    reacts to and the methods callers invoke. *)
Inductive Operation : Type :=
| OpCreateLeaflet
| OpRestoreBackground
| OpSetCurrentBackground (index : Z)
| OpBackgroundSwitchChange (val : Z)
| OpStreamMarkersIn (response : ApiResult)
| OpTimerFires
| OpInstantiateMarkers (data : MarkerData)
| OpOnMarkerReady (type : string) (group : Group) (instance : Instance)
    (marker : LeafletMarker).

Definition perform {driver : StorageDriver} (op : Operation) : Action unit :=
  match op with
  | OpCreateLeaflet => createLeaflet
  | OpRestoreBackground => restoreBackground
  | OpSetCurrentBackground index => setCurrentBackground index
  | OpBackgroundSwitchChange val => onBackgroundSwitchChange val
  | OpStreamMarkersIn response => streamMarkersIn response
  | OpTimerFires => timerFires
  | OpInstantiateMarkers data => instantiateMarkers data
  | OpOnMarkerReady type group instance marker =>
      onMarkerReady type group instance marker
  end.

(** ** Sample maps *)

Definition config_of_crs (c : Box) : Config :=
  {| crs := c; backgrounds := []; groups := ∅; layerIds := [] |}.

Definition map_of_crs (c : Box) : DataMap :=
  new_DataMap "map" None None ∅ (config_of_crs c).

(** [[ [ 0, 0 ], [ 100, 100 ] ]] *)
Definition map_lower_upper : DataMap := map_of_crs (pt 0 0, pt 100 100).
(** [[ [ 100, 100 ], [ 0, 0 ] ]] *)
Definition map_upper_lower : DataMap := map_of_crs (pt 100 100, pt 0 0).
(** [[ [ 0, 100 ], [ 100, 0 ] ]] *)
Definition map_mixed : DataMap := map_of_crs (pt 0 100, pt 100 0).
(** [[ [ -50, -50 ], [ 0, 0 ] ]] *)
Definition map_negative : DataMap := map_of_crs (pt (-50) (-50), pt 0 0).

(** A map with two backgrounds and two groups, before and after line 339
    created the Leaflet map and line 356 restored the background. *)
Definition surface : Background :=
  {| bg_name := "Surface"; bg_at := (pt 0 0, pt 100 100); bg_layers := [1%nat] |}.
Definition caves : Background :=
  {| bg_name := "Caves"; bg_at := (pt 0 0, pt 100 100); bg_layers := [2%nat; 3%nat] |}.

Definition chest : Group :=
  {| markerIcon := Some "chest.png"; canDismiss := true; size := (#32)%js;
     extraMinZoomSize := None; fillColor := None; strokeColor := None;
     strokeWidth := None |}.
Definition ore : Group :=
  {| markerIcon := None; canDismiss := false; size := (#4)%js;
     extraMinZoomSize := None; fillColor := Some "#f00"; strokeColor := None;
     strokeWidth := None |}.

Definition sampleConfig : Config :=
  {| crs := (pt 0 0, pt 100 100);
     backgrounds := [surface; caves];
     groups := <["chest" := chest]> (<["ore" := ore]> ∅);
     layerIds := ["cave"] |}.

Definition sampleMap (urlMarker : option string) : DataMap :=
  new_DataMap "sample" None urlMarker ∅ sampleConfig.

Definition sampleMapReady (urlMarker : option string) : DataMap :=
  exec (createLeaflet ;; restoreBackground) (sampleMap urlMarker).

(** A storage driver, and payloads for the sample map. *)
Global Instance sampleStorage : StorageDriver :=
  {| getMarkerKey := λ type instance, VString ("M:" +:+ type);
     isDismissed := λ stored type instance, false |}.

Definition goldVein : Instance :=
  {| lat := (#25)%js; lon := (#75)%js;
     slots := Some {| uid := Some (VString "gold-1"); label := Some "Gold";
                      desc := None; image := None; article := None |} |}.

Definition plainSpot : Instance :=
  {| lat := (#10)%js; lon := (#20)%js; slots := None |}.

Definition knownPayload : MarkerData :=
  [("ore", [goldVein]); ("chest cave", [plainSpot])].


(** A payload whose first bucket names its group [toString]. *)
Definition inheritedPayload : MarkerData :=
  [("toString cave", [plainSpot]); ("ore", [goldVein])].



(** ** View controls and marker scaling (map.js, lines 249-265)

    The view of the Leaflet map (zoom, centre) is not part of the state; an
    action that sets it yields the argument it hands to Leaflet. *)

(** [restoreDefaultView()]: the zoom is reset on [this.leaflet] first, then
    the bounds of the current background are handed to [fitBounds]. *)
Definition restoreDefaultView : Action Box :=
  this <- get ;;
  match leaflet this with
  | None => throw TypeError
  | Some _ =>
      match background this with
      | None => throw TypeError
      | Some bg => ret (translateBox this (bg_at bg))
      end
  end.

(** [centreView()]: the point handed to [setView]. *)
Definition centreView : Action Point :=
  this <- get ;;
  match background this with
  | None => throw TypeError
  | Some bg =>
      let box := translateBox this (bg_at bg) in
      match leaflet this with
      | None => throw TypeError
      | Some _ =>
          ret ( ((box.2.1 + box.1.1) / #2)%js, ((box.2.2 + box.1.2) / #2)%js )
      end
  end.

(** [updateMarkerScaling()]: the two factors written into the options of
    the Leaflet map, which are not part of the state.  [zoom], [minZoom] and
    [maxZoom] are what the Leaflet map reports. *)
Definition updateMarkerScaling (zoom minZoom maxZoom : number)
  : Action (number * number) :=
  this <- get ;;
  match leaflet this with
  | None => throw TypeError
  | Some _ => ret ((zoom / minZoom)%js, (zoom / maxZoom)%js)
  end.

(** The layers on the Leaflet map, none while it does not exist. *)
Definition layersOnMap (this : DataMap) : list LayerHandle :=
  from_option onMap [] (leaflet this).

(** The layers on the map once [x.remove()] ran for every [x] of [l]. *)
Definition removeLayers (l onmap : list LayerHandle) : list LayerHandle :=
  foldl (λ acc x, filter (λ y, y ≠ x) acc) onmap l.

(** The layers on the map once [x.addTo( map ); x.bringToBack()] ran for
    every [x] of [l]. *)
Definition pushToBack (l onmap : list LayerHandle) : list LayerHandle :=
  foldl (λ acc x, x :: filter (λ y, y ≠ x) acc) onmap l.

(** The state a call of [setCurrentBackground] leaves, in closed form. *)
Definition afterSetCurrentBackground (index : Z) (s : DataMap) : DataMap :=
  let new := backgrounds (config s) !! Z.to_nat (effectiveIndex s index) in
  set_leaflet
    ((λ m, {| onMap :=
                match new with
                | Some bg => pushToBack (bg_layers bg)
                               (removeLayers (currentLayers s) (onMap m))
                | None => removeLayers (currentLayers s) (onMap m)
                end |}) <$> leaflet s)
    (set_backgroundIndex (effectiveIndex s index) (set_background new s)).

(** ** Start-up registration of the groups (map.js, lines 360-370) *)

Definition set_leafletIcons (v : gmap string Icon) (s : DataMap) : DataMap :=
  {| id := id s; config := config s; storage := storage s;
     layerManager := layerManager s; background := background s;
     backgroundIndex := backgroundIndex s; dataSetFilters := dataSetFilters s;
     leaflet := leaflet s; leafletIcons := v;
     markerIdToAutoOpen := markerIdToAutoOpen s; crsOrigin := crsOrigin s;
     crsScaleY := crsScaleY s; crsScaleX := crsScaleX s;
     openedPopups := openedPopups s; callbacks := callbacks s;
     timers := timers s |}.

(** The body of [for ( const groupName in this.config.groups )]: register
    the group with the layer manager and, for a group with an icon, prepare
    the icon object. *)
Definition registerGroup (entry : string * Group) : Action unit :=
  let groupName := entry.1 in
  let group := entry.2 in
  (* Register with the layer manager *)
  modify (λ s, set_layerManager (lm_register groupName (layerManager s)) s) ;;
  if truthy_string (markerIcon group)
  then (* Prepare the icon objects for Leaflet markers *)
    modify (λ s, set_leafletIcons
                   (<[groupName :=
                        {| iconUrl := default EmptyString (markerIcon group);
                           iconSize := size group |}]> (leafletIcons s)) s)
  else ret tt.

(** The loop over the configured groups.  JavaScript visits the groups in
    the order the configuration lists them, which the finite map does not
    record; here they are visited in the order of the map's entries.  Each
    group is visited once and every visit writes under the group's own
    name, so the state the loop leaves is the same in either order. *)
Definition registerGroups : Action unit :=
  this <- get ;;
  forEach registerGroup (map_to_list (groups (config this))).

(** ** Every method of a constructed map

    The operations above together with the start-up registration of the
    groups, the two view controls and the marker scaling.  The remaining
    methods of map.js ([isLayerUsed], [translatePoint], [translateBox],
    [getCoordLabel], [buildBackgroundOverlayObject]) compute a value and
    assign nothing. *)
Inductive Method : Type :=
| Perform (op : Operation)
| RegisterGroups
| RestoreDefaultView
| CentreView
| UpdateMarkerScaling (zoom minZoom maxZoom : number).

Definition invoke {driver : StorageDriver} (m : Method) : Action unit :=
  match m with
  | Perform op => perform op
  | RegisterGroups => registerGroups
  | RestoreDefaultView => restoreDefaultView ;; ret tt
  | CentreView => centreView ;; ret tt
  | UpdateMarkerScaling zoom minZoom maxZoom =>
      updateMarkerScaling zoom minZoom maxZoom ;; ret tt
  end.

(** [m] is the larger of [a] and [b]. *)
Definition largerOf (a b m : Qc) : Prop :=
  (m = a ∨ m = b) ∧ (a ≤ m)%Qc ∧ (b ≤ m)%Qc.

(** A rational that is a binary64 value: an integer of at most 53 bits
    times a power of two within the exponent range of a double. *)
Definition representable (q : Qc) : Prop :=
  ∃ n e : Z,
    Z.abs n < 2 ^ 53 ∧ -1074 ≤ e ≤ 971
    ∧ q = Q2Qc (inject_Z n * Qpower (Qmake 2 1) e)%Q.

(** 100 divided by [m] is a binary64 value, so that the division of line 57
    or 58 by [m] yields the quotient itself, with nothing rounded off. *)
Definition exactQuotient (m : Qc) : Prop :=
  ∃ q, representable q ∧ (q * m)%Qc = Q2Qc (inject_Z 100).

(** The transform parameters are those the constructor derives from the
    configuration the map holds. *)
Definition constructedParameters (this : DataMap) : Prop :=
  crsParameters this
  = crsParameters (new_DataMap (id this) None None ∅ (config this)).

(** Corners anchored at the origin of the native space: one corner is
    [[ 0, 0 ]] and the other has two positive components. *)
Definition anchoredCorners (c00 c01 c10 c11 : Qc) : Prop :=
  (c00 = 0 ∧ c01 = 0 ∧ 0 < c10 ∧ 0 < c11)%Qc
  ∨ (c10 = 0 ∧ c11 = 0 ∧ 0 < c00 ∧ 0 < c01)%Qc.

(** ** What the layer manager keeps *)

(** Everything registered in [s] is still registered in [s']: the members in
    their order, and the layers. *)
Definition registeredStill (s s' : DataMap) : Prop :=
  lm_members (layerManager s) `prefix_of` lm_members (layerManager s')
  ∧ lm_layers (layerManager s) ⊆ lm_layers (layerManager s').

(** An action never takes anything registered away, whether it completes
    or throws. *)
Definition keepsRegistered {A} (c : Action A) : Prop :=
  ∀ s, registeredStill s (c s).2.

(** ** The API query (map.js, lines 197-206) *)

(** [l.join( sep )] *)
Fixpoint Array_join (sep : string) (l : list string) : string :=
  match l with
  | [] => EmptyString
  | [x] => x
  | x :: rest => x +:+ sep +:+ Array_join sep rest
  end.

Record ApiQuery : Type := {
  q_action : string;
  q_title : string;
  q_revid : option Z;
  q_filter : option string
}.

(** The query [streamMarkersIn] sends.  [version] is a revision identifier,
    falsy when missing or zero; [filter] is a list of group identifiers or
    [null], and any list, the empty one too, is truthy. *)
Definition streamQuery (pageName : string) (version : option Z)
    (filter : option (list string)) : ApiQuery :=
  {| q_action := "queryDataMap";
     q_title := pageName;
     q_revid := match version with
                | Some v => if (v =? 0) then None else Some v
                | None => None
                end;
     q_filter := match filter with
                 | Some l => Some (Array_join "|" l)
                 | None => None
                 end |}.

(** ** Marker popups (popup.js) *)

(** [s.indexOf( c ) >= 0] for a character [c]. *)
Fixpoint contains (c : Ascii.ascii) (s : string) : bool :=
  match s with
  | EmptyString => false
  | String d rest => Ascii.eqb d c || contains c rest
  end.

(** What [build] appends to the content of a popup. *)
Inductive PopupElement : Type :=
| Subtitle (text : string)
| Title (html : string)
| Coordinates (text : string)
| Description (html : string)
| PopupImage (src : string).

(** What [build] reads besides the slots of the placement: the display name
    of the marker's group, the layers the marker is attached to, the
    discriminator of each configured layer ([config.layers[id].discrim]),
    the coordinate label the map formats, and whether coordinates are
    shown. *)
Record PopupContext : Type := {
  groupDisplayName : string;
  attachedLayers : list string;
  layerDiscrim : string → option string;
  coordLabel : string;
  showCoordinates : bool
}.

(** The discriminators of the layers after the first, for layers that exist
    and have a non-empty one. *)
Definition discriminators (ctx : PopupContext) : list string :=
  omap (λ layerId,
          match layerDiscrim ctx layerId with
          | Some d => if truthy_string (Some d) then Some d else None
          | None => None
          end)
       (drop 1 (attachedLayers ctx)).

(** [MarkerPopup.prototype.build]: the elements appended to the content, in
    order, and the slots it leaves, which are the slots of the placement
    itself: [build] stores the wrapped description back into them. *)
Definition build (ctx : PopupContext) (slots : Slots)
  : list PopupElement * Slots :=
  (* Build the title *)
  let title :=
    match label slots with
    | Some l =>
        if truthy_string (Some l) && negb (bool_decide (groupDisplayName ctx = l))
        then [Subtitle (groupDisplayName ctx); Title l]
        else [Title (groupDisplayName ctx)]
    | None => [Title (groupDisplayName ctx)]
    end in
  (* Collect layer discriminators *)
  let discrims := discriminators ctx in
  (* Coordinates *)
  let coordText :=
    match discrims with
    | [] => coordLabel ctx
    | _ => coordLabel ctx +:+ " (" +:+ Array_join ", " discrims +:+ ")"
    end in
  let coordinates := if showCoordinates ctx then [Coordinates coordText] else [] in
  (* Description *)
  let desc' :=
    match desc slots with
    | Some d =>
        if truthy_string (Some d)
        then if String.prefix "<p>" d then Some d
             else Some ("<p>" +:+ d +:+ "</p>")
        else Some d
    | None => None
    end in
  let description :=
    match desc' with
    | Some d => if truthy_string (Some d) then [Description d] else []
    | None => []
    end in
  (* Image *)
  let picture :=
    match image slots with
    | Some src => if truthy_string (Some src) then [PopupImage src] else []
    | None => []
    end in
  (title ++ coordinates ++ description ++ picture,
   {| uid := uid slots; label := label slots; desc := desc';
      image := image slots; article := article slots |}).

(** The related-article tool of [buildTools]: the page the link points to
    and the text of the link, when the placement or its group names an
    article.  [defaultText] is the message
    [datamap-popup-related-article]. *)
Definition relatedArticle (slotArticle groupArticle : option string)
    (defaultText : string) : option (string * string) :=
  let article :=
    if truthy_string slotArticle then slotArticle else groupArticle in
  match article with
  | Some a =>
      if truthy_string (Some a)
      then if contains JS.pipe a
           then let split := take 2 (JS.split JS.pipe a) in
                Some (default EmptyString (split !! 0%nat),
                      default EmptyString (split !! 1%nat))
           else Some (a, defaultText)
      else None
  | None => None
  end.

(** * Properties *)

(** ** Facts about numbers *)

Lemma ltb_asym (a b : number) : (a <? b)%js = true → (b <? a)%js = false.
Proof.
  destruct a as [x| | |], b as [y| | |]; simpl; try done.
  destruct (x ?= y)%Qc eqn:Hxy; try done. intros _.
  apply Qclt_alt in Hxy.
  destruct (y ?= x)%Qc eqn:Hyx; try done.
  apply Qclt_alt in Hyx. exfalso. apply (Qclt_not_le _ _ Hxy).
  by apply Qclt_le_weak.
Qed.

Lemma div_Fin (x y : Qc) : y ≠ 0%Qc → (Fin x / Fin y)%js = Fin (x / y).
Proof.
  intros Hy. simpl. destruct (y ?= 0)%Qc eqn:E; try done.
  by apply Qceq_alt in E.
Qed.

Lemma Math_max_Fin (x y : Qc) :
  JS.Math_max (Fin x) (Fin y) = Fin (if (Fin x <? Fin y)%js then y else x).
Proof. unfold JS.Math_max. by destruct (Fin x <? Fin y)%js. Qed.

Lemma of_Z_100_neq_0 : Q2Qc (inject_Z 100) ≠ 0%Qc.
Proof. intros H. by apply (f_equal this) in H. Qed.

(** The scale [100 / m] of a non-zero finite [m] is finite and non-zero. *)
Lemma scale_nonzero (m : Qc) :
  m ≠ 0%Qc → ∃ s : Qc, (#100 / Fin m)%js = Fin s ∧ s ≠ 0%Qc.
Proof.
  intros Hm. exists (Q2Qc (inject_Z 100) / m)%Qc. split.
  - by apply div_Fin.
  - intros H. apply of_Z_100_neq_0.
    replace (Q2Qc (inject_Z 100)) with (Q2Qc (inject_Z 100) / m * m)%Qc
      by (field; done).
    rewrite H. ring.
Qed.

Lemma leb_Fin (x y : Qc) : (Fin x <=? Fin y)%js = true ↔ (x ≤ y)%Qc.
Proof.
  simpl. rewrite Qcle_alt. destruct (x ?= y)%Qc; split; intros; congruence.
Qed.

Lemma ltb_Fin (x y : Qc) : (Fin x <? Fin y)%js = true ↔ (x < y)%Qc.
Proof.
  simpl. rewrite Qclt_alt. destruct (x ?= y)%Qc; split; intros; congruence.
Qed.

Lemma ltb_Fin_false (x y : Qc) : (y ≤ x)%Qc → (Fin x <? Fin y)%js = false.
Proof.
  intros H. destruct (Fin x <? Fin y)%js eqn:E; [|done].
  apply ltb_Fin in E. by apply Qclt_not_le in E.
Qed.

Ltac qc_compare :=
  first [apply Qcle_alt | apply Qclt_alt]; vm_compute; congruence.

(** ** Orientation detection *)

(** C1, as the code has it: the origin is top-left exactly when both
    components of the first corner are strictly below the second corner's;
    in every other case, both components exceeding as well as any mixed or
    equal ordering, it is bottom-left.  Construction is total: no ordering of
    the corners makes it fail. *)
Theorem crsOrigin_detection (id : string) (filterGroups urlMarker : option string)
    (stored : MapStorage) (config : Config) :
  let this := new_DataMap id filterGroups urlMarker stored config in
  let c := crs config in
  (crsOrigin this = TopLeft
     ↔ (c.1.1 <? c.2.1)%js = true ∧ (c.1.2 <? c.2.2)%js = true)
  ∧ ((c.2.1 <? c.1.1)%js = true ∧ (c.2.2 <? c.1.2)%js = true
     → crsOrigin this = BottomLeft)
  ∧ (¬ ((c.1.1 <? c.2.1)%js = true ∧ (c.1.2 <? c.2.2)%js = true)
     → crsOrigin this = BottomLeft).
Proof.
  intros this c. subst this c. simpl.
  destruct (crs config) as [[c00 c01] [c10 c11]]; simpl.
  destruct (c00 <? c10)%js eqn:H0, (c01 <? c11)%js eqn:H1; simpl;
    repeat split; try done; try (intros [? ?]; done); try tauto.
  intros [Hgt _]. apply ltb_asym in Hgt. congruence.
Qed.

Lemma crsOrigin_detection_witness :
  crsOrigin map_upper_lower = BottomLeft ∧ crsOrigin map_mixed = BottomLeft.
Proof.
  split.
  - destruct (crsOrigin_detection "map" None None ∅
                (config_of_crs (pt 100 100, pt 0 0))) as (_ & Hboth & _).
    apply Hboth. split; reflexivity.
  - destruct (crsOrigin_detection "map" None None ∅
                (config_of_crs (pt 0 100, pt 100 0))) as (_ & _ & Hother).
    apply Hother. intros [_ H]. vm_compute in H. discriminate.
Defined.

(** C1 as the specification states it fails on corners in a mixed ordering:
    for [[ [ 0, 100 ], [ 100, 0 ] ]] the specification demands an
    [InvalidCoordinateSpace] error, the constructor yields a bottom-left
    transform. *)
Lemma crsOrigin_mixed_not_rejected :
  spec_orientation (pt 0 100, pt 100 0) = inl InvalidCoordinateSpace
  ∧ crsOrigin (new_DataMap "map" None None ∅ (config_of_crs (pt 0 100, pt 100 0)))
    = BottomLeft
  ∧ inr (crsOrigin (new_DataMap "map" None None ∅
                      (config_of_crs (pt 0 100, pt 100 0))))
    ≠ spec_orientation (pt 0 100, pt 100 0).
Proof. repeat split; vm_compute; congruence. Qed.

(** ** The transform on the two scenario maps *)

(** C2, as the code has it: bounds [[ [ 0, 0 ], [ 100, 100 ] ]] give a
    top-left origin and send [[ 25, 75 ]] to [[ 75, 75 ]] (flipped, scale 1);
    bounds [[ [ 100, 100 ], [ 0, 0 ] ]] give a bottom-left origin and send
    [[ 25, 75 ]] to [[ 25, 75 ]] (no flip). *)
Theorem translatePoint_scenarios :
  crsOrigin map_lower_upper = TopLeft
  ∧ translatePoint map_lower_upper (pt 25 75) = pt 75 75
  ∧ crsOrigin map_upper_lower = BottomLeft
  ∧ translatePoint map_upper_lower (pt 25 75) = pt 25 75.
Proof. repeat split; vm_compute; reflexivity. Qed.

(** C2 as the specification states it does not hold: the two orientations
    are the other way round. *)
Lemma scenario_orientations_swapped :
  ¬ (crsOrigin map_lower_upper = BottomLeft
     ∧ translatePoint map_lower_upper (pt 25 75) = pt 25 75
     ∧ crsOrigin map_upper_lower = TopLeft
     ∧ translatePoint map_upper_lower (pt 25 75) = pt 25 25).
Proof. intros [H _]. vm_compute in H. discriminate. Qed.

(** ** Boxes *)

(** With a top-left origin [translateBox] is [translatePoint] on each
    corner. *)
Lemma translateBox_topLeft (this : DataMap) (box : Box) :
  crsOrigin this = TopLeft →
  translateBox this box = (translatePoint this box.1, translatePoint this box.2).
Proof. intros H. unfold translateBox, translatePoint. by rewrite H. Qed.

(** With a bottom-left origin the first corner and the first component of
    the second corner agree with [translatePoint]; the last component is
    computed from [box[1][0]]. *)
Lemma translateBox_bottomLeft_shape (this : DataMap) (box : Box) :
  crsOrigin this = BottomLeft →
  translateBox this box
  = (translatePoint this box.1,
     ((translatePoint this box.2).1, (box.2.1 * crsScaleX this)%js)).
Proof. intros H. unfold translateBox, translatePoint. by rewrite H. Qed.

(** C3 at a failing input: on the bottom-left map with bounds
    [[ [ 100, 100 ], [ 0, 0 ] ]] the box [[ [ 0, 0 ], [ 10, 20 ] ]] becomes
    [[ [ 0, 0 ], [ 10, 10 ] ]], while [translatePoint] sends its second
    corner to [[ 10, 20 ]]. *)
Theorem translateBox_bottomLeft_second_corner :
  crsOrigin map_upper_lower = BottomLeft
  ∧ translateBox map_upper_lower (pt 0 0, pt 10 20) = (pt 0 0, pt 10 10)
  ∧ translatePoint map_upper_lower (pt 10 20) = pt 10 20
  ∧ translateBox map_upper_lower (pt 0 0, pt 10 20)
    ≠ (translatePoint map_upper_lower (pt 0 0),
       translatePoint map_upper_lower (pt 10 20)).
Proof. repeat split; vm_compute; congruence. Qed.

(** ** Round trip through the cursor display

    The numbers of this development do not round, so what follows is about
    the formulas of the transform and of the cursor display, not about the
    error a double accumulates on the way: in exact arithmetic the second
    undoes the first. *)

(** In exact arithmetic, whenever the flip reference and both scale factors
    are finite and the scale factors are not zero, converting a finite point
    to render space and back returns it. *)
Lemma roundtrip_finite_scales (this : DataMap)
    (c10 sy sx p0 p1 : Qc) :
  (crs (config this)).2.1 = Fin c10 →
  crsScaleY this = Fin sy → sy ≠ 0%Qc →
  crsScaleX this = Fin sx → sx ≠ 0%Qc →
  renderToNative this (translatePoint this (Fin p0, Fin p1)) = (Fin p0, Fin p1).
Proof.
  intros Hc Hsy Hy Hsx Hx.
  unfold renderToNative, translatePoint.
  destruct (crsOrigin this); rewrite ?Hc, Hsy, Hsx; cbn [fst snd JS.sub JS.mul];
    rewrite !div_Fin by done; cbn [JS.sub]; f_equal; f_equal; field; done.
Qed.

(** In exact arithmetic, on a map built from finite corners whose larger
    value on each axis is not zero, converting a finite native point with
    [translatePoint] and back with the formulas of the cursor display
    returns the point. *)
Lemma renderToNative_translatePoint (id : string)
    (filterGroups urlMarker : option string) (stored : MapStorage)
    (config : Config) (c00 c01 c10 c11 p0 p1 : Qc) :
  crs config = ((Fin c00, Fin c01), (Fin c10, Fin c11)) →
  JS.Math_max (Fin c00) (Fin c10) ≠ Fin 0 →
  JS.Math_max (Fin c01) (Fin c11) ≠ Fin 0 →
  let this := new_DataMap id filterGroups urlMarker stored config in
  renderToNative this (translatePoint this (Fin p0, Fin p1)) = (Fin p0, Fin p1).
Proof.
  intros Hcrs Hy Hx this.
  rewrite Math_max_Fin in Hy, Hx.
  destruct (scale_nonzero (if (Fin c00 <? Fin c10)%js then c10 else c00))
    as (sy & Esy & Hsy); [congruence|].
  destruct (scale_nonzero (if (Fin c01 <? Fin c11)%js then c11 else c01))
    as (sx & Esx & Hsx); [congruence|].
  apply (roundtrip_finite_scales this c10 sy sx); try done;
    subst this; simpl; rewrite Hcrs; simpl fst; simpl snd;
    rewrite ?Math_max_Fin; done.
Qed.

Lemma renderToNative_translatePoint_witness :
  renderToNative map_lower_upper (translatePoint map_lower_upper (pt 25 75))
  = pt 25 75.
Proof.
  apply (renderToNative_translatePoint "map" None None ∅
           (config_of_crs (pt 0 0, pt 100 100))
           (Q2Qc (inject_Z 0)) (Q2Qc (inject_Z 0))
           (Q2Qc (inject_Z 100)) (Q2Qc (inject_Z 100))
           (Q2Qc (inject_Z 25)) (Q2Qc (inject_Z 75))).
  - reflexivity.
  - vm_compute. discriminate.
  - vm_compute. discriminate.
Defined.

(** Where the larger corner value of an axis is zero no tolerance helps: on
    bounds [[ [ -50, -50 ], [ 0, 0 ] ]] both scale factors are
    [100 / 0 = Infinity], the point [[ -25, -25 ]] lies within the bounds,
    is sent to [[ Infinity, -Infinity ]], and comes back as
    [[ NaN, NaN ]]. *)
Lemma roundtrip_fails_zero_max :
  crsScaleY map_negative = PosInf
  ∧ crsScaleX map_negative = PosInf
  ∧ ((#(-50) <=? #(-25))%js && (#(-25) <=? #0)%js = true)
  ∧ translatePoint map_negative (pt (-25) (-25)) = (PosInf, NegInf)
  ∧ renderToNative map_negative (translatePoint map_negative (pt (-25) (-25)))
    = (NaN, NaN)
  ∧ renderToNative map_negative (translatePoint map_negative (pt (-25) (-25)))
    ≠ pt (-25) (-25).
Proof. repeat split; vm_compute; congruence. Qed.

(** What the handler displays is that conversion of the cursor position. *)
Lemma onMouseMove_displays (this : DataMap) (latlng p : Point) :
  onMouseMove this latlng = Some p → p = renderToNative this latlng.
Proof.
  unfold onMouseMove.
  destruct ((latlng.1 >=? #(-5))%js && (latlng.1 <=? #105)%js
            && (latlng.2 >=? #(-5))%js && (latlng.2 <=? #105)%js); congruence.
Qed.

Example onMouseMove_scenario :
  onMouseMove map_lower_upper (translatePoint map_lower_upper (pt 25 75))
  = Some (pt 25 75).
Proof. vm_compute. reflexivity. Qed.

(** ** Background selection *)

Lemma set_leaflet_same (s : DataMap) : set_leaflet (leaflet s) s = s.
Proof. by destruct s. Qed.

(** Removing layers never throws and touches only the Leaflet map, which
    keeps the layers that were not removed. *)
Lemma forEach_layer_remove (l : list LayerHandle) (s : DataMap) :
  ∃ lf, forEach layer_remove l s = (Normal tt, set_leaflet lf s)
        ∧ (leaflet s = None → lf = None)
        ∧ ∀ m, leaflet s = Some m →
            ∃ m', lf = Some m' ∧ ∀ x, x ∈ onMap m' ↔ x ∈ onMap m ∧ x ∉ l.
Proof.
  revert s. induction l as [|y l IH]; intros s.
  - exists (leaflet s). rewrite set_leaflet_same. repeat split; try done.
    intros m Hm. exists m. split; [done|]. intros x. set_solver.
  - destruct (IH (set_leaflet
                    ((λ m, {| onMap := filter (λ z, z ≠ y) (onMap m) |}) <$> leaflet s) s))
      as (lf & Hrun & Hnone & Hsome).
    exists lf. split; [|split].
    + simpl. unfold bind, layer_remove at 1, modify. by rewrite Hrun.
    + intros Hs. apply Hnone. simpl. by rewrite Hs.
    + intros m Hs.
      destruct (Hsome {| onMap := filter (λ z, z ≠ y) (onMap m) |})
        as (m' & -> & Hm'); [simpl; by rewrite Hs|].
      exists m'. split; [done|]. intros x. rewrite Hm'. simpl.
      rewrite list_elem_of_filter. set_solver.
Qed.

Lemma layer_addToBack_Some (x : LayerHandle) (s : DataMap) (m : LeafletMap) :
  leaflet s = Some m →
  layer_addToBack x s
  = (Normal tt,
     set_leaflet (Some {| onMap := x :: filter (λ y, y ≠ x) (onMap m) |}) s).
Proof. intros H. unfold layer_addToBack, bind, get, modify. by rewrite H. Qed.

Lemma layer_addToBack_None (x : LayerHandle) (s : DataMap) :
  leaflet s = None → layer_addToBack x s = (Throw TypeError, s).
Proof. intros H. unfold layer_addToBack, bind, get, throw. by rewrite H. Qed.

(** Installing layers touches only the Leaflet map; on an existing map it
    completes and every installed layer is on the map afterwards. *)
Lemma forEach_layer_addToBack (l : list LayerHandle) (s : DataMap) :
  ∃ r lf, forEach layer_addToBack l s = (r, set_leaflet lf s)
          ∧ ∀ m, leaflet s = Some m →
              r = Normal tt
              ∧ ∃ m', lf = Some m' ∧ ∀ x, x ∈ onMap m' ↔ x ∈ l ∨ x ∈ onMap m.
Proof.
  revert s. induction l as [|y l IH]; intros s.
  - exists (Normal tt), (leaflet s). rewrite set_leaflet_same. split; [done|].
    intros m Hm. split; [done|]. exists m. split; [done|]. set_solver.
  - simpl. unfold bind.
    destruct (leaflet s) as [m|] eqn:Hs.
    + rewrite (layer_addToBack_Some y s m Hs).
      destruct (IH (set_leaflet
                      (Some {| onMap := y :: filter (λ z, z ≠ y) (onMap m) |}) s))
        as (r & lf & Hrun & Hsome).
      exists r, lf. split; [by rewrite Hrun|].
      intros m0 [= <-].
      destruct (Hsome _ eq_refl) as (-> & m' & -> & Hm').
      split; [done|]. exists m'. split; [done|]. intros x. rewrite Hm'. simpl.
      rewrite elem_of_cons, list_elem_of_filter.
      destruct (decide (x = y)); set_solver.
    + rewrite (layer_addToBack_None y s Hs).
      exists (Throw TypeError), None. rewrite <- Hs, set_leaflet_same.
      split; [done|]. rewrite Hs. done.
Qed.

(** What a call leaves behind, whether it completes or throws: the two
    background fields are set from the effective index, and nothing but the
    Leaflet map changes besides.  On an existing map and a defined
    background the call completes, the layers of the previous background are
    off the map and those of the new one are on it. *)
Lemma setCurrentBackground_run (index : Z) (s : DataMap) :
  ∃ r lf,
    setCurrentBackground index s
    = (r, set_leaflet lf
            (set_backgroundIndex (effectiveIndex s index)
               (set_background
                  (backgrounds (config s) !! Z.to_nat (effectiveIndex s index)) s)))
    ∧ ∀ m new,
        leaflet s = Some m →
        backgrounds (config s) !! Z.to_nat (effectiveIndex s index) = Some new →
        r = Normal tt
        ∧ ∃ m', lf = Some m'
            ∧ ∀ x, x ∈ onMap m'
                   ↔ x ∈ bg_layers new ∨ (x ∈ onMap m ∧ x ∉ currentLayers s).
Proof.
  unfold setCurrentBackground, effectiveIndex.
  unfold bind at 1. unfold get at 1.
  assert (∃ lf, (match background s with
                 | Some bg => forEach layer_remove (bg_layers bg) ;;
                              modify (set_background None)
                 | None => ret tt
                 end) s = (Normal tt, set_leaflet lf (set_background None s))
                ∧ ∀ m, leaflet s = Some m →
                    ∃ m1, lf = Some m1
                      ∧ ∀ x, x ∈ onMap m1 ↔ x ∈ onMap m ∧ x ∉ currentLayers s)
    as (lf1 & Hclear & Hlf1).
  { unfold currentLayers. destruct (background s) as [bg|] eqn:Hbg.
    - destruct (forEach_layer_remove (bg_layers bg) s) as (lf & Hrun & _ & Hsome).
      exists lf. split; [unfold bind; by rewrite Hrun|]. done.
    - exists (leaflet s). split; [destruct s; simpl in *; by subst|].
      intros m Hm. exists m. split; [done|]. set_solver. }
  unfold bind at 1. rewrite Hclear.
  unfold bind, get, modify. simpl.
  set (i := if (index <? 0) || (index >=? Z.of_nat (length (backgrounds (config s))))
            then 0 else index).
  destruct (backgrounds (config s) !! Z.to_nat i) as [bg|] eqn:Hbg.
  - destruct (forEach_layer_addToBack (bg_layers bg)
                (set_backgroundIndex i
                   (set_background (Some bg)
                      (set_leaflet lf1 (set_background None s)))))
      as (r & lf & Hrun & Hsome).
    exists r, lf. split; [by rewrite Hrun|].
    intros m new Hm [= <-].
    destruct (Hlf1 m Hm) as (m1 & -> & Hm1).
    destruct (Hsome m1 eq_refl) as (-> & m' & -> & Hm').
    split; [done|]. exists m'. split; [done|].
    intros x. rewrite Hm', Hm1. done.
  - exists (Throw TypeError), lf1. split; [done|]. intros m new _ [=].
Qed.

Lemma setCurrentBackground_backgroundIndex (index : Z) (s : DataMap) :
  backgroundIndex (exec (setCurrentBackground index) s) = effectiveIndex s index.
Proof.
  unfold exec. destruct (setCurrentBackground_run index s) as (r & lf & -> & _).
  reflexivity.
Qed.

Lemma setCurrentBackground_background (index : Z) (s : DataMap) :
  background (exec (setCurrentBackground index) s)
  = backgrounds (config s) !! Z.to_nat (effectiveIndex s index).
Proof.
  unfold exec. destruct (setCurrentBackground_run index s) as (r & lf & -> & _).
  reflexivity.
Qed.

Lemma setCurrentBackground_config (index : Z) (s : DataMap) :
  config (exec (setCurrentBackground index) s) = config s.
Proof.
  unfold exec. destruct (setCurrentBackground_run index s) as (r & lf & -> & _).
  reflexivity.
Qed.

Lemma setCurrentBackground_storage (index : Z) (s : DataMap) :
  storage (exec (setCurrentBackground index) s) = storage s.
Proof.
  unfold exec. destruct (setCurrentBackground_run index s) as (r & lf & -> & _).
  reflexivity.
Qed.

Lemma effectiveIndex_range (s : DataMap) (index : Z) :
  backgrounds (config s) ≠ [] →
  0 ≤ effectiveIndex s index < Z.of_nat (length (backgrounds (config s))).
Proof.
  intros Hne. unfold effectiveIndex.
  assert (0 < Z.of_nat (length (backgrounds (config s)))).
  { destruct (backgrounds (config s)); [done|]. simpl length. lia. }
  rewrite Z.geb_leb.
  destruct (Z.ltb_spec index 0); cbn [orb]; [lia|].
  destruct (Z.leb_spec (Z.of_nat (length (backgrounds (config s)))) index); lia.
Qed.

(** C6: an index that is negative or not below the number of configured
    backgrounds is replaced by 0 before it is used: the stored index is 0 and
    the selected background is the first one. *)
Theorem setCurrentBackground_fallback (s : DataMap) (index : Z) :
  index < 0 ∨ Z.of_nat (length (backgrounds (config s))) ≤ index →
  backgroundIndex (exec (setCurrentBackground index) s) = 0
  ∧ background (exec (setCurrentBackground index) s)
    = backgrounds (config s) !! 0%nat.
Proof.
  intros Hout.
  rewrite setCurrentBackground_backgroundIndex, setCurrentBackground_background.
  assert (effectiveIndex s index = 0) as ->; [|done].
  unfold effectiveIndex. rewrite Z.geb_leb.
  destruct (Z.ltb_spec index 0); cbn [orb]; [done|].
  destruct (Z.leb_spec (Z.of_nat (length (backgrounds (config s)))) index);
    [done|lia].
Qed.

Lemma setCurrentBackground_fallback_witness :
  backgroundIndex (exec (setCurrentBackground 7) (sampleMapReady None)) = 0
  ∧ background (exec (setCurrentBackground 7) (sampleMapReady None)) = Some surface.
Proof.
  pose proof (setCurrentBackground_fallback (sampleMapReady None) 7) as H.
  vm_compute in H. vm_compute. apply H. right. discriminate.
Defined.

Lemma consistent_after_call (s : DataMap) (index : Z) :
  backgrounds (config s) ≠ [] →
  backgroundConsistent (exec (setCurrentBackground index) s).
Proof.
  intros Hne. unfold backgroundConsistent.
  rewrite setCurrentBackground_background, setCurrentBackground_backgroundIndex,
    setCurrentBackground_config.
  pose proof (effectiveIndex_range s index Hne) as Hrange.
  split; [done|]. split; [|done].
  apply lookup_lt_is_Some. lia.
Qed.

(** C10, as the code has it: on a map with at least one configured
    background, after a call of [setCurrentBackground] with an integer
    index, and after any further calls with integer indices, the selected
    background is the configured background at the stored index, and the
    stored index is within range. *)
Theorem setCurrentBackground_consistent (s : DataMap) (index : Z) (further : list Z) :
  backgrounds (config s) ≠ [] →
  backgroundConsistent
    (foldl (λ s i, exec (setCurrentBackground i) s) s (index :: further)).
Proof.
  revert s index. induction further as [|j further IH]; intros s index Hne.
  - by apply consistent_after_call.
  - change (backgroundConsistent
              (foldl (λ s i, exec (setCurrentBackground i) s)
                 (exec (setCurrentBackground index) s) (j :: further))).
    apply IH. by rewrite setCurrentBackground_config.
Qed.

Lemma setCurrentBackground_consistent_witness :
  backgroundConsistent
    (foldl (λ s i, exec (setCurrentBackground i) s) (sampleMapReady None) [7; 1; -3]).
Proof.
  pose proof (setCurrentBackground_consistent (sampleMapReady None) 7 [1; -3]) as H.
  vm_compute in H. vm_compute. apply H. discriminate.
Defined.

(** On whole numbers the comparisons of numbers are those of integers. *)
Lemma Qccompare_of_Z (a b : Z) :
  (Q2Qc (inject_Z a) ?= Q2Qc (inject_Z b))%Qc = (a ?= b).
Proof.
  unfold Qccompare, Q2Qc. cbn [Qcanon.this].
  rewrite <- Qred_compare. unfold Qcompare, inject_Z. cbn [Qnum Qden].
  by rewrite !Z.mul_1_r.
Qed.

Lemma ltb_of_Z (a b : Z) : (#a <? #b)%js = (a <? b).
Proof.
  unfold JS.ltb, JS.of_Z, Z.ltb. rewrite Qccompare_of_Z. by destruct (a ?= b).
Qed.

Lemma leb_of_Z (a b : Z) : (#a <=? #b)%js = (a <=? b).
Proof.
  unfold JS.leb, JS.of_Z, Z.leb. rewrite Qccompare_of_Z. by destruct (a ?= b).
Qed.

Lemma geb_of_Z (a b : Z) : (#a >=? #b)%js = (a >=? b).
Proof. unfold JS.geb. rewrite leb_of_Z, Z.geb_leb. reflexivity. Qed.

Lemma Qred_inject_Z (i : Z) : Qred (inject_Z i) = inject_Z i.
Proof.
  apply Qred_identity. unfold inject_Z. cbn [Qnum Qden]. apply Z.gcd_1_r.
Qed.

Lemma elementAt_of_Z {A} (l : list A) (i : Z) :
  0 ≤ i → elementAt l (ArgNumber (#i)%js) = l !! Z.to_nat i.
Proof.
  intros Hi. unfold elementAt, JS.of_Z, Q2Qc. cbn [Qcanon.this].
  rewrite Qred_inject_Z. cbn [inject_Z Qnum Qden].
  destruct (Z.leb_spec 0 i); [reflexivity|lia].
Qed.

(** For an integer argument the two values of lines 233-239 are the ones
    the method leaves in the state. *)
Lemma selectBackground_integer (s : DataMap) (index : Z) :
  selectBackground s (ArgNumber (#index)%js)
  = (ArgNumber (#(backgroundIndex (exec (setCurrentBackground index) s)))%js,
     background (exec (setCurrentBackground index) s)).
Proof.
  rewrite setCurrentBackground_backgroundIndex, setCurrentBackground_background.
  unfold selectBackground, effectiveIndex. cbn [toNumber].
  rewrite ltb_of_Z, geb_of_Z, Z.geb_leb.
  destruct (Z.ltb_spec index 0); cbn [orb].
  - by rewrite (elementAt_of_Z _ 0).
  - destruct (Z.leb_spec (Z.of_nat (length (backgrounds (config s)))) index).
    + by rewrite (elementAt_of_Z _ 0).
    + by rewrite elementAt_of_Z.
Qed.

(** On a state with an integer index the consistency of the two stored
    values is the consistency of the background fields. *)
Lemma backgroundConsistent_selection (s : DataMap) :
  backgroundConsistent s →
  selectionConsistent s (ArgNumber (#(backgroundIndex s))%js, background s).
Proof.
  intros (Hbg & _ & Hlow & Hhigh). unfold selectionConsistent. cbn [fst snd toNumber].
  rewrite elementAt_of_Z by done. rewrite leb_of_Z, ltb_of_Z.
  split; [done|]. split; [by apply Z.leb_le|by apply Z.ltb_lt].
Qed.

(** C10 as stated, for whatever argument is passed, fails on an argument
    that is not a number: [NaN], and likewise a missing argument, is neither
    below 0 nor at least the number of backgrounds, so the check of line 233
    lets it through; it is stored as the index, which then is not within
    range, and no background is selected.  (The call goes on to throw a
    [TypeError] on reading [this.background.layers], with both fields
    already assigned.) *)
Lemma background_unchecked_for_NaN :
  backgrounds (config (sampleMapReady None)) ≠ []
  ∧ selectBackground (sampleMapReady None) (ArgNumber NaN) = (ArgNumber NaN, None)
  ∧ selectBackground (sampleMapReady None) ArgUndefined = (ArgUndefined, None)
  ∧ ¬ selectionConsistent (sampleMapReady None)
        (selectBackground (sampleMapReady None) (ArgNumber NaN))
  ∧ ¬ selectionConsistent (sampleMapReady None)
        (selectBackground (sampleMapReady None) ArgUndefined).
Proof.
  split; [vm_compute; discriminate|].
  split; [vm_compute; reflexivity|].
  split; [vm_compute; reflexivity|].
  split; intros (_ & H & _); vm_compute in H; discriminate.
Qed.

Lemma restoreBackground_unfold (s : DataMap) :
  restoreBackground s
  = setCurrentBackground (default 0 (storage s !! "background")) s.
Proof. reflexivity. Qed.

(** C7, as the code has it: [setCurrentBackground] takes the previous
    background's layers off the map and puts the new one's on it, and leaves
    the storage as it was; so does the call at start-up.  The choice is
    persisted by the [change] handler of the background switch, which stores
    the selected value once [setCurrentBackground] has returned. *)
Theorem setCurrentBackground_does_not_persist (s : DataMap) (index : Z) :
  storage (exec (setCurrentBackground index) s) = storage s
  ∧ storage (exec restoreBackground s) = storage s
  ∧ (∀ m new,
       leaflet s = Some m →
       backgrounds (config s) !! Z.to_nat (effectiveIndex s index) = Some new →
       (setCurrentBackground index s).1 = Normal tt
       ∧ ∃ m', leaflet (exec (setCurrentBackground index) s) = Some m'
           ∧ ∀ x, x ∈ onMap m'
                  ↔ x ∈ bg_layers new ∨ (x ∈ onMap m ∧ x ∉ currentLayers s))
  ∧ ((setCurrentBackground index s).1 = Normal tt →
     storage (exec (onBackgroundSwitchChange index) s)
     = <["background" := index]> (storage s)).
Proof.
  split; [apply setCurrentBackground_storage|].
  split.
  { unfold exec. rewrite restoreBackground_unfold.
    apply setCurrentBackground_storage. }
  split.
  - intros m new Hm Hnew. unfold exec.
    destruct (setCurrentBackground_run index s) as (r & lf & Hrun & Hok).
    destruct (Hok m new Hm Hnew) as (-> & m' & -> & Hm').
    rewrite Hrun. split; [reflexivity|]. exists m'. split; [reflexivity|exact Hm'].
  - intros Hnormal. unfold exec, onBackgroundSwitchChange, bind, modify.
    pose proof (setCurrentBackground_storage index s) as Hst. unfold exec in Hst.
    destruct (setCurrentBackground index s) as [[[]|e] s'];
      cbn [fst snd] in *; [|discriminate].
    rewrite <- Hst. reflexivity.
Qed.

Lemma setCurrentBackground_does_not_persist_witness :
  storage (exec (onBackgroundSwitchChange 1) (sampleMapReady None)) !! "background"
  = Some 1
  ∧ ∃ m', leaflet (exec (setCurrentBackground 1) (sampleMapReady None)) = Some m'
      ∧ (2%nat ∈ onMap m' ∧ 3%nat ∈ onMap m' ∧ 1%nat ∉ onMap m').
Proof.
  destruct (setCurrentBackground_does_not_persist (sampleMapReady None) 1)
    as (_ & _ & Hlayers & Hhandler).
  split.
  - rewrite Hhandler by (vm_compute; reflexivity). apply lookup_insert_eq.
  - specialize (Hlayers {| onMap := [1%nat] |} caves).
    vm_compute in Hlayers.
    destruct (Hlayers eq_refl eq_refl) as (_ & m' & Hm' & Hon).
    exists m'. split; [vm_compute; exact Hm'|].
    repeat split.
    + apply Hon. left. set_solver.
    + apply Hon. left. set_solver.
    + intros H1. apply Hon in H1 as [H1|[_ H1]].
      * set_solver.
      * apply H1. set_solver.
Defined.

(** C7 as stated fails: a call of [setCurrentBackground] selecting
    background 1 on a map whose storage is empty leaves the storage empty. *)
Lemma background_choice_not_persisted :
  (setCurrentBackground 1 (sampleMapReady None)).1 = Normal tt
  ∧ backgroundIndex (exec (setCurrentBackground 1) (sampleMapReady None)) = 1
  ∧ storage (exec (setCurrentBackground 1) (sampleMapReady None)) !! "background"
    = None
  ∧ storage (exec (setCurrentBackground 1) (sampleMapReady None)) !! "background"
    ≠ Some 1.
Proof. repeat split; vm_compute; congruence. Qed.

(** ** Marker ingestion *)

Section LoaderFacts.

Context {driver : StorageDriver}.

Lemma ingesting_start (s : DataMap) :
  ingesting s (layerManager s) (openedPopups s) = s.
Proof. by destruct s. Qed.

Lemma deepLinkedb_spec (this : DataMap) (type : string) (instance : Instance) :
  deepLinkedb this type instance = true ↔ deepLinked this type instance.
Proof.
  unfold deepLinkedb, deepLinked.
  destruct (markerIdToAutoOpen this) as [requested|].
  - unfold JS.strict_eq_string.
    destruct (stableKey type instance) as [t|n].
    + rewrite bool_decide_eq_true. split.
      * intros ->. by exists requested.
      * intros (r & [= <-] & [= ->]). done.
    + split; [done|]. intros (r & _ & [=]).
  - split; [done|]. intros (r & [=] & _).
Qed.

Lemma onMarkerReady_run (type : string) (group : Group) (instance : Instance)
    (marker : LeafletMarker) (s : DataMap) :
  onMarkerReady type group instance marker s
  = (Normal tt,
     set_openedPopups
       (openedPopups s ++ if deepLinkedb s type instance then [marker] else []) s).
Proof.
  assert (set_openedPopups (openedPopups s ++ []) s = s) as Hsame
    by (rewrite app_nil_r; by destruct s).
  unfold onMarkerReady, deepLinkedb, stableKey, bind, get.
  destruct (markerIdToAutoOpen s) as [requested|]; [|by rewrite Hsame].
  destruct (slots instance) as [sl|]; simpl; [destruct (uid sl); simpl|];
    match goal with
    | |- context [JS.strict_eq_string ?v ?r] =>
        destruct (JS.strict_eq_string v r)
    end; by rewrite ?Hsame.
Qed.

Lemma placeMarker_run (s : DataMap) (markerType : string) (group : Group)
    (instance : Instance) (lm : MarkerLayerManager) (opened : list LeafletMarker) :
  let marker := constructMarker s markerType
                  (groupNameOf markerType) group instance in
  placeMarker markerType (groupNameOf markerType)
    (Some group) instance (ingesting s lm opened)
  = (Normal tt,
     ingesting s (lm_addMember markerType marker lm)
       (opened ++ if deepLinkedb s markerType instance then [marker] else [])).
Proof.
  intros marker. unfold placeMarker, bind at 1, get, bind, modify.
  rewrite onMarkerReady_run. reflexivity.
Qed.

Lemma placeMarker_unknown (markerType groupName : string) (instance : Instance)
    (s : DataMap) :
  placeMarker markerType groupName None instance s
  = (Throw TypeError, s).
Proof. reflexivity. Qed.

(** The placements of one bucket of a configured group. *)
Lemma forEach_placeMarker (s : DataMap) (markerType : string) (group : Group)
    (placements : list Instance) (lm : MarkerLayerManager)
    (opened : list LeafletMarker) :
  let members :=
    (λ instance, (markerType, constructMarker s markerType
                                (groupNameOf markerType) group instance))
      <$> placements in
  forEach (placeMarker markerType
             (groupNameOf markerType) (Some group))
    placements (ingesting s lm opened)
  = (Normal tt,
     ingesting s
       {| lm_layers := lm_layers lm; lm_members := lm_members lm ++ members |}
       (opened ++ deepLinkedMarkers s members)).
Proof.
  revert lm opened. induction placements as [|instance placements IH];
    intros lm opened members.
  - subst members. simpl. unfold ret, deepLinkedMarkers. simpl.
    rewrite !app_nil_r. by destruct lm.
  - subst members. cbn [forEach]. unfold bind. rewrite placeMarker_run.
    cbv zeta in IH. rewrite IH. f_equal.
    unfold lm_addMember, deepLinkedMarkers. cbn [lm_layers lm_members].
    rewrite fmap_cons. cbn [fmap list_fmap snd]. rewrite filter_cons.
    cbn [m_type m_instance constructMarker].
    rewrite <- !app_assoc. simpl.
    destruct (deepLinkedb s markerType instance); reflexivity.
Qed.

Lemma instantiateMarkers_unfold (data : MarkerData) :
  instantiateMarkers data
  = (forEach registerBucket data ;; forEach unpackBucket data).
Proof. reflexivity. Qed.

Lemma forEach_app {A} (f : A → Action unit) (l1 l2 : list A) (s : DataMap) :
  forEach f (l1 ++ l2) s = (forEach f l1 ;; forEach f l2) s.
Proof.
  revert s. induction l1 as [|x l1 IH]; intros s; [done|].
  simpl. unfold bind. destruct (f x s) as [[[]|e] s']; [|done].
  rewrite IH. reflexivity.
Qed.

Lemma lm_members_foldl_register (names : list string) (lm : MarkerLayerManager) :
  lm_members (foldl (λ lm name, lm_register name lm) lm names) = lm_members lm.
Proof. revert lm. induction names as [|n names IH]; intros lm; [done|]. simpl. by rewrite IH. Qed.

Lemma lm_members_registerAll (data : MarkerData) (lm : MarkerLayerManager) :
  lm_members (registerAll data lm) = lm_members lm.
Proof. apply lm_members_foldl_register. Qed.

Lemma forEach_register (names : list string) (s : DataMap) :
  forEach (λ name, modify (λ s, set_layerManager
                                  (lm_register name (layerManager s)) s)) names s
  = (Normal tt,
     set_layerManager (foldl (λ lm name, lm_register name lm) (layerManager s) names) s).
Proof.
  revert s. induction names as [|n names IH]; intros s.
  - simpl. unfold ret. by destruct s.
  - simpl. unfold bind, modify. rewrite IH. reflexivity.
Qed.

Lemma forEach_registerBucket (data : MarkerData) (s : DataMap) :
  forEach registerBucket data s
  = (Normal tt, set_layerManager (registerAll data (layerManager s)) s).
Proof.
  unfold registerAll. revert s. induction data as [|entry data IH]; intros s.
  - simpl. unfold ret. by destruct s.
  - simpl. unfold bind, registerBucket at 1. rewrite forEach_register, IH.
    rewrite foldl_app. reflexivity.
Qed.

Lemma deepLinkedMarkers_app (s : DataMap) (l1 l2 : list (string * LeafletMarker)) :
  deepLinkedMarkers s (l1 ++ l2) = deepLinkedMarkers s l1 ++ deepLinkedMarkers s l2.
Proof. unfold deepLinkedMarkers. by rewrite fmap_app, filter_app. Qed.

Lemma lookupGroup_configured (c : Config) (name : string) (group : Group) :
  groups c !! name = Some group → lookupGroup c name = Some group.
Proof. intros H. unfold lookupGroup. by rewrite H. Qed.


Lemma unpackBucket_known (s : DataMap) (entry : string * list Instance)
    (lm : MarkerLayerManager) (opened : list LeafletMarker) :
  knownBucket s entry →
  unpackBucket entry (ingesting s lm opened)
  = (Normal tt,
     ingesting s
       {| lm_layers := lm_layers lm;
          lm_members := lm_members lm ++ bucketMarkers s entry |}
       (opened ++ deepLinkedMarkers s (bucketMarkers s entry))).
Proof.
  intros Hknown. unfold unpackBucket, bind, get, bucketMarkers.
  change (config (ingesting s lm opened)) with (config s).
  destruct (groups (config s) !! groupNameOf entry.1) as [group|] eqn:Hgroup.
  - rewrite (lookupGroup_configured _ _ group Hgroup). apply forEach_placeMarker.
  - destruct Hknown as [Hempty|[g Hg]]; [|congruence].
    rewrite Hempty. simpl. unfold ret, deepLinkedMarkers. simpl.
    rewrite !app_nil_r. by destruct lm.
Qed.

Lemma unpackBucket_unknown (s : DataMap) (entry : string * list Instance) :
  lookupGroup (config s) (groupNameOf entry.1) = None →
  entry.2 ≠ [] →
  unpackBucket entry s = (Throw TypeError, s).
Proof.
  intros Hgroup Hne. unfold unpackBucket, bind at 1, get. rewrite Hgroup.
  destruct entry.2 as [|instance placements]; [done|]. reflexivity.
Qed.

(** The placements of a placeable bucket all become members. *)
Lemma unpackBucket_placeable (s : DataMap) (entry : string * list Instance)
    (lm : MarkerLayerManager) (opened : list LeafletMarker) :
  placeableBucket s entry →
  ∃ lm' opened',
    unpackBucket entry (ingesting s lm opened)
    = (Normal tt, ingesting s lm' opened').
Proof.
  intros Hplaceable. unfold unpackBucket, bind, get.
  change (config (ingesting s lm opened)) with (config s).
  destruct (lookupGroup (config s) (groupNameOf entry.1)) as [group|] eqn:Hgroup.
  - rewrite forEach_placeMarker. by eexists _, _.
  - destruct Hplaceable as [Hempty|[g Hg]]; [|congruence].
    rewrite Hempty. by exists lm, opened.
Qed.

Lemma forEach_unpackBucket_placeable (s : DataMap) (data : MarkerData)
    (lm : MarkerLayerManager) (opened : list LeafletMarker) :
  Forall (placeableBucket s) data →
  ∃ lm' opened',
    forEach unpackBucket data (ingesting s lm opened)
    = (Normal tt, ingesting s lm' opened').
Proof.
  intros Hall. revert lm opened.
  induction Hall as [|entry data Hentry _ IH]; intros lm opened.
  - by exists lm, opened.
  - cbn [forEach]. unfold bind.
    destruct (unpackBucket_placeable s entry lm opened Hentry)
      as (lm1 & opened1 & ->).
    apply IH.
Qed.

Lemma forEach_unpackBucket_known (s : DataMap) (data : MarkerData)
    (lm : MarkerLayerManager) (opened : list LeafletMarker) :
  Forall (knownBucket s) data →
  forEach unpackBucket data (ingesting s lm opened)
  = (Normal tt,
     ingesting s
       {| lm_layers := lm_layers lm;
          lm_members := lm_members lm ++ payloadMarkers s data |}
       (opened ++ deepLinkedMarkers s (payloadMarkers s data))).
Proof.
  intros Hknown. revert lm opened.
  induction Hknown as [|entry data Hentry Hdata IH]; intros lm opened.
  - simpl. unfold ret, payloadMarkers, deepLinkedMarkers. simpl.
    rewrite !app_nil_r. by destruct lm.
  - simpl. unfold bind. rewrite (unpackBucket_known s entry lm opened Hentry).
    rewrite IH. unfold payloadMarkers. rewrite fmap_cons. simpl concat.
    rewrite deepLinkedMarkers_app. cbn [lm_layers lm_members].
    by rewrite <- !app_assoc.
Qed.

(** Ingestion of a payload whose buckets are all known completes: every
    layer of every key is registered, every placement has its marker among
    the members, and the markers the deep link names had [openPopup]
    called. *)
Lemma instantiateMarkers_known (data : MarkerData) (s : DataMap) :
  Forall (knownBucket s) data →
  instantiateMarkers data s
  = (Normal tt,
     ingesting s
       {| lm_layers := lm_layers (registerAll data (layerManager s));
          lm_members := lm_members (layerManager s) ++ payloadMarkers s data |}
       (openedPopups s ++ deepLinkedMarkers s (payloadMarkers s data))).
Proof.
  intros Hknown. rewrite instantiateMarkers_unfold. unfold bind.
  rewrite forEach_registerBucket.
  change (set_layerManager (registerAll data (layerManager s)) s)
    with (ingesting s (registerAll data (layerManager s)) (openedPopups s)).
  rewrite (forEach_unpackBucket_known s data _ _ Hknown).
  by rewrite lm_members_registerAll.
Qed.



(** Before the Leaflet map exists the payload waits on a timer. *)
Lemma streamMarkersIn_waits (s : DataMap) (markers : MarkerData) :
  leaflet s = None →
  streamMarkersIn (Resolved false markers) s
  = (Normal tt, set_timers (timers s ++ [markers]) s).
Proof.
  intros Hs. unfold streamMarkersIn, waitForLeaflet, bind, get, modify.
  by rewrite Hs.
Qed.




End LoaderFacts.


(** The scenario of the layer-combination key: ingesting a bucket
    [chest cave] registers the layers [chest] and [cave] and makes its marker
    a member of both. *)
Example instantiateMarkers_registers_layers :
  let s' := exec (instantiateMarkers knownPayload) (sampleMapReady None) in
  "chest" ∈ lm_layers (layerManager s')
  ∧ "cave" ∈ lm_layers (layerManager s')
  ∧ m_instance <$> lm_membersOf "cave" (layerManager s') = [plainSpot]
  ∧ m_instance <$> lm_membersOf "chest" (layerManager s') = [plainSpot]
  ∧ m_instance <$> lm_membersOf "ore" (layerManager s') = [goldVein].
Proof.
  cbv zeta. unfold exec.
  rewrite (instantiateMarkers_known knownPayload (sampleMapReady None)).
  - repeat split; try (vm_compute; reflexivity);
      cbn [snd ingesting layerManager set_openedPopups set_layerManager lm_layers];
      vm_compute registerAll; set_solver.
  - unfold knownPayload.
    repeat (constructor; [right; vm_compute; eauto|]). constructor.
Qed.


(** A bucket whose group name is one every object answers to does not stop
    ingestion: line 148 finds the inherited function, every property of a
    group reads [undefined] on it, and the placement becomes a circle marker
    without radius or colours; the success callback is invoked. *)
Example streamMarkersIn_inherited_name :
  let s' := exec (streamMarkersIn (Resolved false inheritedPayload))
                 (sampleMapReady None) in
  (streamMarkersIn (Resolved false inheritedPayload) (sampleMapReady None)).1
  = Normal tt
  ∧ length (lm_members (layerManager s')) = 2%nat
  ∧ m_options <$> head (lm_members (layerManager s')).*2
    = Some (CircleMarker NaN None None (JS.ratio 7 10) None (#1)%js)
  ∧ callbacks s' = [successCallback].
Proof. repeat split; vm_compute; reflexivity. Qed.


(** ** What the operations leave alone *)

Section Preservation.

Context {X : Type} (obs : DataMap → X).

Lemma preserves_ret {A} (a : A) : preserves obs (ret a).
Proof. by intros s. Qed.

Lemma preserves_throw {A} (e : JSError) : preserves obs (@throw A e).
Proof. by intros s. Qed.

Lemma preserves_get : preserves obs get.
Proof. by intros s. Qed.

Lemma preserves_modify (f : DataMap → DataMap) :
  (∀ s, obs (f s) = obs s) → preserves obs (modify f).
Proof. intros Hf s. apply Hf. Qed.

Lemma preserves_bind {A B} (c : Action A) (k : A → Action B) :
  preserves obs c → (∀ a, preserves obs (k a)) → preserves obs (bind c k).
Proof.
  intros Hc Hk s. unfold bind. specialize (Hc s).
  destruct (c s) as [[a|e] s1]; simpl in *; [|done].
  by rewrite Hk.
Qed.

Lemma preserves_forEach {A} (f : A → Action unit) (l : list A) :
  (∀ x, preserves obs (f x)) → preserves obs (forEach f l).
Proof.
  intros Hf. induction l as [|x l IH]; simpl.
  - apply preserves_ret.
  - apply preserves_bind; [apply Hf|]. intros _. apply IH.
Qed.

End Preservation.

Ltac preserves_step :=
  first
    [ apply preserves_ret
    | apply preserves_throw
    | apply preserves_get
    | apply preserves_modify; intros ?; reflexivity
    | apply preserves_bind; [|intros ?]
    | apply preserves_forEach; intros ?
    | match goal with
      | |- preserves _ (match ?x with _ => _ end) => destruct x
      end
    | progress cbv zeta ].

Lemma perform_preserves_crsParameters {driver : StorageDriver} (op : Operation) :
  preserves crsParameters (perform op).
Proof.
  destruct op; cbn [perform];
    unfold createLeaflet, restoreBackground, onBackgroundSwitchChange,
      setCurrentBackground, layer_remove, layer_addToBack,
      streamMarkersIn, timerFires, waitForLeaflet, ingest, instantiateMarkers,
      placeMarker, onMarkerReady;
    repeat preserves_step.
Qed.

Lemma perform_preserves_markerIdToAutoOpen {driver : StorageDriver} (op : Operation) :
  preserves markerIdToAutoOpen (perform op).
Proof.
  destruct op; cbn [perform];
    unfold createLeaflet, restoreBackground, onBackgroundSwitchChange,
      setCurrentBackground, layer_remove, layer_addToBack,
      streamMarkersIn, timerFires, waitForLeaflet, ingest, instantiateMarkers,
      placeMarker, onMarkerReady;
    repeat preserves_step.
Qed.

(** The identifier to open automatically is the [marker] parameter read at
    construction, whatever happened to the map since. *)
Lemma markerIdToAutoOpen_fixed {driver : StorageDriver}
    (id : string) (filterGroups urlMarker : option string) (stored : MapStorage)
    (config : Config) (ops : list Operation) :
  markerIdToAutoOpen
    (foldl (λ s op, exec (perform op) s)
       (new_DataMap id filterGroups urlMarker stored config) ops)
  = urlMarker.
Proof.
  change urlMarker
    with (markerIdToAutoOpen (new_DataMap id filterGroups urlMarker stored config))
    at 2.
  generalize (new_DataMap id filterGroups urlMarker stored config).
  induction ops as [|op ops IH]; intros s; [reflexivity|].
  simpl. rewrite IH. apply perform_preserves_markerIdToAutoOpen.
Qed.

Lemma invoke_preserves_crsParameters {driver : StorageDriver} (m : Method) :
  preserves crsParameters (invoke m).
Proof.
  destruct m as [op| | | |zoom minZoom maxZoom]; cbn [invoke];
    [apply perform_preserves_crsParameters|..];
    unfold registerGroups, registerGroup, restoreDefaultView, centreView,
      updateMarkerScaling;
    repeat preserves_step.
Qed.

(** The larger of two finite values is what [Math.max] returns. *)
Lemma Math_max_largerOf (a b m : Qc) :
  largerOf a b m → JS.Math_max (Fin a) (Fin b) = Fin m.
Proof.
  intros (Hm & Ha & Hb). rewrite Math_max_Fin. f_equal.
  destruct (Fin a <? Fin b)%js eqn:E.
  - apply ltb_Fin in E. destruct Hm as [->| ->]; [|done].
    by apply Qclt_not_le in E.
  - destruct Hm as [->| ->]; [done|].
    apply Qcle_antisym; [done|].
    destruct (Qclt_le_dec a b) as [Hlt|Hle]; [|done].
    apply ltb_Fin in Hlt. congruence.
Qed.

(** Dividing 100 by a finite value yields the exact quotient where there is
    one. *)
Lemma scale_exact (m q : Qc) :
  (q * m)%Qc = Q2Qc (inject_Z 100) → (#100 / Fin m)%js = Fin q.
Proof.
  intros Hq.
  assert (m ≠ 0%Qc) as Hm.
  { intros ->. apply of_Z_100_neq_0. rewrite <- Hq. ring. }
  unfold JS.of_Z. rewrite div_Fin by done. f_equal. rewrite <- Hq. by field.
Qed.

(** C9: construction computes the scale factors as 100 divided by the larger
    of the two corners' values on the axis, [crsScaleY] from the first
    components and [crsScaleX] from the second.  For finite corners the
    divisor is the larger of the two values whichever corner holds it, and
    where 100 divided by it is a double the factor is that double.  No
    sequence of methods invoked on the map changes [crsOrigin], [crsScaleX]
    or [crsScaleY]. *)
Theorem crs_parameters_fixed {driver : StorageDriver}
    (id : string) (filterGroups urlMarker : option string) (stored : MapStorage)
    (config : Config) (methods : list Method) :
  let this := new_DataMap id filterGroups urlMarker stored config in
  let final := foldl (λ s m, exec (invoke m) s) this methods in
  crsScaleY this = (#100 / JS.Math_max (crs config).1.1 (crs config).2.1)%js
  ∧ crsScaleX this = (#100 / JS.Math_max (crs config).1.2 (crs config).2.2)%js
  ∧ (∀ c00 c01 c10 c11 my mx : Qc,
       crs config = ((Fin c00, Fin c01), (Fin c10, Fin c11)) →
       largerOf c00 c10 my →
       largerOf c01 c11 mx →
       crsScaleY this = (#100 / Fin my)%js
       ∧ crsScaleX this = (#100 / Fin mx)%js
       ∧ (∀ q, representable q → (q * my)%Qc = Q2Qc (inject_Z 100) →
               crsScaleY this = Fin q)
       ∧ (∀ q, representable q → (q * mx)%Qc = Q2Qc (inject_Z 100) →
               crsScaleX this = Fin q))
  ∧ crsOrigin final = crsOrigin this
  ∧ crsScaleY final = crsScaleY this
  ∧ crsScaleX final = crsScaleX this.
Proof.
  intros this final. split; [reflexivity|]. split; [reflexivity|]. split.
  - intros c00 c01 c10 c11 my mx Hcrs Hy Hx.
    assert (crsScaleY this = (#100 / Fin my)%js) as Ey.
    { subst this. cbn [crsScaleY new_DataMap]. rewrite Hcrs. cbn [fst snd].
      by rewrite (Math_max_largerOf c00 c10 my). }
    assert (crsScaleX this = (#100 / Fin mx)%js) as Ex.
    { subst this. cbn [crsScaleX new_DataMap]. rewrite Hcrs. cbn [fst snd].
      by rewrite (Math_max_largerOf c01 c11 mx). }
    split; [done|]. split; [done|]. split.
    + intros q _ Hq. rewrite Ey. by apply scale_exact.
    + intros q _ Hq. rewrite Ex. by apply scale_exact.
  - assert (crsParameters final = crsParameters this) as H.
    { subst final. generalize this. clear this.
      induction methods as [|m methods IH]; intros s; [reflexivity|].
      simpl. rewrite IH. apply invoke_preserves_crsParameters. }
    unfold crsParameters in H. by simplify_eq.
Qed.

Lemma representable_1 : representable 1%Qc.
Proof.
  exists 1, 0. split; [reflexivity|]. split; [lia|].
  apply Qc_is_canon. reflexivity.
Qed.

Lemma crs_parameters_fixed_witness :
  crsScaleY map_lower_upper = Fin 1%Qc
  ∧ crsScaleX map_upper_lower = Fin 1%Qc
  ∧ crsScaleY
      (foldl (λ s m, exec (invoke m) s) map_lower_upper
         [Perform OpCreateLeaflet; RegisterGroups; CentreView])
    = crsScaleY map_lower_upper.
Proof.
  split; [|split].
  - destruct (crs_parameters_fixed "map" None None ∅
                (config_of_crs (pt 0 0, pt 100 100)) [])
      as (_ & _ & Hlarger & _).
    destruct (Hlarger (Q2Qc (inject_Z 0)) (Q2Qc (inject_Z 0))
                (Q2Qc (inject_Z 100)) (Q2Qc (inject_Z 100))
                (Q2Qc (inject_Z 100)) (Q2Qc (inject_Z 100)))
      as (_ & _ & Hy & _).
    + reflexivity.
    + split; [by right|]. split; [qc_compare|qc_compare].
    + split; [by right|]. split; [qc_compare|qc_compare].
    + apply Hy; [apply representable_1|]. apply Qc_is_canon. reflexivity.
  - destruct (crs_parameters_fixed "map" None None ∅
                (config_of_crs (pt 100 100, pt 0 0)) [])
      as (_ & _ & Hlarger & _).
    destruct (Hlarger (Q2Qc (inject_Z 100)) (Q2Qc (inject_Z 100))
                (Q2Qc (inject_Z 0)) (Q2Qc (inject_Z 0))
                (Q2Qc (inject_Z 100)) (Q2Qc (inject_Z 100)))
      as (_ & _ & _ & Hx).
    + reflexivity.
    + split; [by left|]. split; [qc_compare|qc_compare].
    + split; [by left|]. split; [qc_compare|qc_compare].
    + apply Hx; [apply representable_1|]. apply Qc_is_canon. reflexivity.
  - destruct (crs_parameters_fixed "map" None None ∅
                (config_of_crs (pt 0 0, pt 100 100))
                [Perform OpCreateLeaflet; RegisterGroups; CentreView])
      as (_ & _ & _ & _ & Hfixed & _).
    exact Hfixed.
Defined.

(** * Further properties *)

(** ** The default view *)

Lemma Qc_pos_neq_0 (a : Qc) : (0 < a)%Qc → a ≠ 0%Qc.
Proof. intros H ->. by apply Qclt_not_le in H. Qed.

Lemma Qc_half_100 :
  ((Q2Qc (inject_Z 0) + Q2Qc (inject_Z 100)) / Q2Qc (inject_Z 2))%Qc
  = Q2Qc (inject_Z 50).
Proof. apply Qc_is_canon. reflexivity. Qed.

Lemma Qc_half_100' :
  ((Q2Qc (inject_Z 100) + Q2Qc (inject_Z 0)) / Q2Qc (inject_Z 2))%Qc
  = Q2Qc (inject_Z 50).
Proof. apply Qc_is_canon. reflexivity. Qed.

Lemma Qc_2_neq_0 : Q2Qc (inject_Z 2) ≠ 0%Qc.
Proof. intros H. by apply (f_equal Qcanon.this) in H. Qed.

(** The parameters of a map over top-left corners. *)
Lemma constructed_topLeft (this : DataMap) (c00 c01 c10 c11 : Qc) :
  constructedParameters this →
  crs (config this) = ((Fin c00, Fin c01), (Fin c10, Fin c11)) →
  (c00 < c10)%Qc → (c01 < c11)%Qc →
  crsOrigin this = TopLeft
  ∧ crsScaleY this = (#100 / Fin c10)%js
  ∧ crsScaleX this = (#100 / Fin c11)%js.
Proof.
  unfold constructedParameters, crsParameters. intros [= Ho Hy Hx] Hcrs H0 H1.
  rewrite Ho, Hy, Hx. simpl. rewrite Hcrs. cbn [fst snd].
  rewrite !Math_max_Fin.
  apply ltb_Fin in H0, H1. by rewrite H0, H1.
Qed.

(** The parameters of a map over bottom-left corners. *)
Lemma constructed_bottomLeft (this : DataMap) (c00 c01 c10 c11 : Qc) :
  constructedParameters this →
  crs (config this) = ((Fin c00, Fin c01), (Fin c10, Fin c11)) →
  (c10 < c00)%Qc → (c11 < c01)%Qc →
  crsOrigin this = BottomLeft
  ∧ crsScaleY this = (#100 / Fin c00)%js
  ∧ crsScaleX this = (#100 / Fin c01)%js.
Proof.
  unfold constructedParameters, crsParameters. intros [= Ho Hy Hx] Hcrs H0 H1.
  rewrite Ho, Hy, Hx. simpl. rewrite Hcrs. cbn [fst snd].
  rewrite !Math_max_Fin.
  rewrite (ltb_Fin_false c00 c10) by (by apply Qclt_le_weak).
  rewrite (ltb_Fin_false c01 c11) by (by apply Qclt_le_weak). done.
Qed.

(** A corner value times its exact scale factor is 100, and 0 times the
    factor is 0. *)
Lemma scaled_corner (m q : Qc) :
  (q * m)%Qc = Q2Qc (inject_Z 100) →
  (Fin m * (#100 / Fin m))%js = (#100)%js
  ∧ (Fin 0 * (#100 / Fin m))%js = (#0)%js.
Proof.
  intros Hq. rewrite (scale_exact m q Hq). cbn [JS.mul]. unfold JS.of_Z.
  split; f_equal; [by rewrite Qcmult_comm|].
  change (Q2Qc (inject_Z 0)) with 0%Qc. ring.
Qed.

(** The default box of a background, the coordinate space itself, on
    anchored corners whose scale factors are exact: it is the whole render
    square. *)
Lemma translateBox_anchored (this : DataMap) (c00 c01 c10 c11 my mx : Qc) :
  constructedParameters this →
  crs (config this) = ((Fin c00, Fin c01), (Fin c10, Fin c11)) →
  anchoredCorners c00 c01 c10 c11 →
  largerOf c00 c10 my → largerOf c01 c11 mx →
  exactQuotient my → exactQuotient mx →
  translateBox this (crs (config this))
  = match crsOrigin this with
    | TopLeft => (pt 100 0, pt 0 100)
    | BottomLeft => (pt 100 100, pt 0 0)
    end.
Proof.
  intros Hpar Hcrs Hanch Hy Hx (qy & _ & Hqy) (qx & _ & Hqx).
  assert (∀ a m : Qc, (0 < a)%Qc → largerOf 0 a m ∨ largerOf a 0 m → m = a) as Hlarger.
  { intros a m Ha [([->| ->] & H1 & H2)|([->| ->] & H1 & H2)]; try done;
      by apply Qclt_not_le in Ha. }
  destruct Hanch as [(-> & -> & P0 & P1)|(-> & -> & P0 & P1)].
  - destruct (constructed_topLeft this _ _ _ _ Hpar Hcrs P0 P1) as (Ho & Hsy & Hsx).
    rewrite (Hlarger c10 my P0 (or_introl Hy)) in Hqy.
    rewrite (Hlarger c11 mx P1 (or_introl Hx)) in Hqx.
    destruct (scaled_corner c10 qy Hqy) as [Ey Ey0].
    destruct (scaled_corner c11 qx Hqx) as [Ex Ex0].
    unfold translateBox. rewrite Ho, Hsy, Hsx, Hcrs. cbn [fst snd].
    replace (Fin c10 - Fin 0)%js with (Fin c10)
      by (cbn [JS.sub]; f_equal; ring).
    replace (Fin c10 - Fin c10)%js with (Fin 0)
      by (cbn [JS.sub]; f_equal; ring).
    by rewrite Ey, Ey0, Ex, Ex0.
  - destruct (constructed_bottomLeft this _ _ _ _ Hpar Hcrs P0 P1) as (Ho & Hsy & Hsx).
    rewrite (Hlarger c00 my P0 (or_intror Hy)) in Hqy.
    rewrite (Hlarger c01 mx P1 (or_intror Hx)) in Hqx.
    destruct (scaled_corner c00 qy Hqy) as [Ey Ey0].
    destruct (scaled_corner c01 qx Hqx) as [Ex Ex0].
    unfold translateBox. rewrite Ho, Hsy, Hsx, Hcrs. cbn [fst snd].
    by rewrite Ey, Ey0, Ex, Ex0.
Qed.

(** X3.  On a map whose corners are anchored at the origin and whose scale
    factors are exact (100 divided by the far corner's value is a double on
    each axis, as for the corners [[ [ 0, 0 ], [ 100, 100 ] ]]), with a
    background that covers the coordinate space (the default for a
    background without [at]), the reset control fits the view to the whole
    render square and the centre control centres it on [[ 50, 50 ]]. *)
Theorem default_view_anchored (this : DataMap) (bg : Background)
    (c00 c01 c10 c11 my mx : Qc) :
  constructedParameters this →
  crs (config this) = ((Fin c00, Fin c01), (Fin c10, Fin c11)) →
  anchoredCorners c00 c01 c10 c11 →
  largerOf c00 c10 my → largerOf c01 c11 mx →
  exactQuotient my → exactQuotient mx →
  is_Some (leaflet this) →
  background this = Some bg →
  bg_at bg = crs (config this) →
  restoreDefaultView this
  = (Normal match crsOrigin this with
            | TopLeft => (pt 100 0, pt 0 100)
            | BottomLeft => (pt 100 100, pt 0 0)
            end, this)
  ∧ centreView this = (Normal (pt 50 50), this).
Proof.
  intros Hpar Hcrs Hanch Hy Hx Hqy Hqx [m Hm] Hbg Hat.
  pose proof (translateBox_anchored this c00 c01 c10 c11 my mx
                Hpar Hcrs Hanch Hy Hx Hqy Hqx) as Hbox.
  unfold restoreDefaultView, centreView, bind, get, ret.
  rewrite Hm, Hbg, Hat, Hbox. split; [done|].
  destruct (crsOrigin this); cbn [fst snd pt]; unfold JS.of_Z; cbn [JS.add];
    rewrite !div_Fin by apply Qc_2_neq_0;
    by rewrite ?Qc_half_100, ?Qc_half_100'.
Qed.

Lemma default_view_anchored_witness :
  restoreDefaultView (sampleMapReady None)
  = (Normal (pt 100 0, pt 0 100), sampleMapReady None)
  ∧ centreView (sampleMapReady None) = (Normal (pt 50 50), sampleMapReady None).
Proof.
  pose proof (default_view_anchored (sampleMapReady None) surface
                (Q2Qc (inject_Z 0)) (Q2Qc (inject_Z 0))
                (Q2Qc (inject_Z 100)) (Q2Qc (inject_Z 100))
                (Q2Qc (inject_Z 100)) (Q2Qc (inject_Z 100))) as H.
  apply H.
  - vm_compute. reflexivity.
  - reflexivity.
  - left. repeat split; qc_compare.
  - split; [by right|]. split; qc_compare.
  - split; [by right|]. split; qc_compare.
  - exists 1%Qc. split; [apply representable_1|]. apply Qc_is_canon. reflexivity.
  - exists 1%Qc. split; [apply representable_1|]. apply Qc_is_canon. reflexivity.
  - vm_compute. eauto.
  - vm_compute. reflexivity.
  - reflexivity.
Defined.

(** ** Background selection, layer by layer *)

Lemma forEach_layer_remove_run (l : list LayerHandle) (s : DataMap) :
  forEach layer_remove l s
  = (Normal tt,
     set_leaflet ((λ m, {| onMap := removeLayers l (onMap m) |}) <$> leaflet s) s).
Proof.
  revert s. induction l as [|x l IH]; intros s.
  - simpl. unfold ret. f_equal. destruct s as [? ? ? ? ? ? ? [[?]|] ? ? ? ? ? ? ? ?]; done.
  - cbn [forEach]. unfold bind, layer_remove at 1, modify. rewrite IH.
    f_equal. destruct s as [? ? ? ? ? ? ? [[?]|] ? ? ? ? ? ? ? ?]; done.
Qed.

Lemma forEach_layer_addToBack_run (l : list LayerHandle) (s : DataMap)
    (m : LeafletMap) :
  leaflet s = Some m →
  forEach layer_addToBack l s
  = (Normal tt, set_leaflet (Some {| onMap := pushToBack l (onMap m) |}) s).
Proof.
  revert s m. induction l as [|x l IH]; intros s m Hm.
  - cbn [forEach]. unfold ret, pushToBack. cbn [foldl]. destruct m as [onmap].
    cbn [onMap]. by rewrite <- Hm, set_leaflet_same.
  - cbn [forEach]. unfold bind. rewrite (layer_addToBack_Some x s m Hm).
    rewrite (IH _ {| onMap := x :: filter (λ y, y ≠ x) (onMap m) |}); done.
Qed.

Lemma forEach_layer_addToBack_waiting (l : list LayerHandle) (s : DataMap) :
  leaflet s = None → (forEach layer_addToBack l s).2 = s.
Proof.
  intros Hs. destruct l as [|x l]; [done|].
  cbn [forEach]. unfold bind. by rewrite (layer_addToBack_None x s Hs).
Qed.

(** [setCurrentBackground] in closed form. *)
Lemma setCurrentBackground_closed (index : Z) (s : DataMap) :
  exec (setCurrentBackground index) s = afterSetCurrentBackground index s.
Proof.
  unfold exec, setCurrentBackground, afterSetCurrentBackground, effectiveIndex,
    currentLayers.
  unfold bind at 1. unfold get at 1.
  assert ((match background s with
           | Some bg => forEach layer_remove (bg_layers bg) ;;
                        modify (set_background None)
           | None => ret tt
           end) s
          = (Normal tt,
             set_leaflet
               ((λ m, {| onMap := removeLayers
                                    (from_option bg_layers [] (background s))
                                    (onMap m) |}) <$> leaflet s)
               (set_background None s))) as Hclear.
  { destruct (background s) as [bg|] eqn:Hbg.
    - unfold bind. rewrite forEach_layer_remove_run. reflexivity.
    - unfold ret. f_equal.
      destruct s as [? ? ? ? ? ? ? [[?]|] ? ? ? ? ? ? ? ?]; simpl in *; by subst. }
  unfold bind at 1. rewrite Hclear.
  unfold bind, get, modify. cbn [background set_background set_leaflet
    set_backgroundIndex config].
  set (i := if (index <? 0) || (index >=? Z.of_nat (length (backgrounds (config s))))
            then 0 else index).
  destruct (backgrounds (config s) !! Z.to_nat i) as [bg|] eqn:Hbg; [|by destruct (leaflet s)].
  destruct (leaflet s) as [m|] eqn:Hm.
  - erewrite forEach_layer_addToBack_run by reflexivity. reflexivity.
  - rewrite forEach_layer_addToBack_waiting by reflexivity. reflexivity.
Qed.

Lemma removeLayers_filter (l Y : list LayerHandle) :
  removeLayers l Y = filter (λ y, y ∉ l) Y.
Proof.
  unfold removeLayers. revert Y. induction l as [|x l IH]; intros Y.
  - simpl. induction Y as [|y Y IHY]; [done|].
    rewrite filter_cons_True by set_solver. by rewrite <- IHY.
  - simpl. rewrite IH. rewrite list_filter_filter. apply list_filter_iff.
    intros y. set_solver.
Qed.

Lemma pushToBack_split (l Y : list LayerHandle) :
  pushToBack l Y = pushToBack l [] ++ filter (λ y, y ∉ l) Y.
Proof.
  unfold pushToBack. revert Y. induction l as [|x l IH]; intros Y.
  - simpl. induction Y as [|y Y IHY]; [done|].
    rewrite filter_cons_True by set_solver. by rewrite <- IHY.
  - simpl. rewrite IH. rewrite filter_nil. rewrite (IH [x]). rewrite <- app_assoc. f_equal.
    rewrite filter_cons. rewrite list_filter_filter.
    destruct (decide (x ∉ l)).
    + rewrite (filter_cons_True _ x) by done. rewrite filter_nil. simpl. f_equal.
      apply list_filter_iff. intros y. set_solver.
    + rewrite (filter_cons_False _ x) by done. rewrite filter_nil. simpl.
      apply list_filter_iff. intros y. set_solver.
Qed.

Lemma elem_of_pushToBack_nil (l : list LayerHandle) (x : LayerHandle) :
  x ∈ pushToBack l [] ↔ x ∈ l.
Proof.
  induction l as [|y l IH] using rev_ind; [done|].
  unfold pushToBack in *. rewrite foldl_app. simpl.
  rewrite elem_of_cons, list_elem_of_filter, IH, elem_of_app, list_elem_of_singleton.
  destruct (decide (x = y)); set_solver.
Qed.

Lemma NoDup_pushToBack_nil (l : list LayerHandle) : NoDup (pushToBack l []).
Proof.
  induction l as [|y l IH] using rev_ind; [constructor|].
  unfold pushToBack in *. rewrite foldl_app. simpl. constructor.
  - rewrite list_elem_of_filter. tauto.
  - by apply NoDup_filter.
Qed.

(** X5.  A call of [setCurrentBackground] on an existing Leaflet map that
    selects a defined background puts the layers of that background, each
    once, behind every other layer, and leaves the layers that belong to
    neither the previous nor the new background on the map in the order they
    had. *)
Theorem setCurrentBackground_layer_order (s : DataMap) (index : Z)
    (m : LeafletMap) (new : Background) :
  leaflet s = Some m →
  backgrounds (config s) !! Z.to_nat (effectiveIndex s index) = Some new →
  ∃ front,
    leaflet (exec (setCurrentBackground index) s)
    = Some {| onMap :=
                front ++ filter (λ x, (x ∉ currentLayers s) ∧ (x ∉ bg_layers new))
                                (onMap m) |}
    ∧ NoDup front
    ∧ ∀ x, x ∈ front ↔ x ∈ bg_layers new.
Proof.
  intros Hm Hnew. rewrite setCurrentBackground_closed.
  unfold afterSetCurrentBackground. rewrite Hm, Hnew. cbn [fmap option_fmap option_map leaflet set_leaflet].
  exists (pushToBack (bg_layers new) []). split; [|split].
  - rewrite pushToBack_split, removeLayers_filter, list_filter_filter.
    do 3 f_equal. apply list_filter_iff. intros x. tauto.
  - apply NoDup_pushToBack_nil.
  - apply elem_of_pushToBack_nil.
Qed.

Lemma setCurrentBackground_layer_order_witness :
  ∃ front,
    leaflet (exec (setCurrentBackground 1) (sampleMapReady None))
    = Some {| onMap := front ++ filter (λ x, (x ∉ currentLayers (sampleMapReady None))
                                             ∧ (x ∉ bg_layers caves)) [1%nat] |}
    ∧ NoDup front
    ∧ ∀ x, x ∈ front ↔ x ∈ bg_layers caves.
Proof.
  apply (setCurrentBackground_layer_order (sampleMapReady None) 1
           {| onMap := [1%nat] |} caves).
  - vm_compute. reflexivity.
  - vm_compute. reflexivity.
Defined.

Lemma filter_not_elem_of_self (l P : list LayerHandle) :
  (∀ x, x ∈ P → x ∈ l) → filter (λ y, y ∉ l) P = [].
Proof.
  intros HP. induction P as [|p P IH]; [done|].
  rewrite filter_cons_False by (intros H; apply H, HP; set_solver).
  apply IH. intros x Hx. apply HP. set_solver.
Qed.

(** Putting the same layers to the back a second time, after taking them
    off, changes nothing. *)
Lemma pushToBack_again (l Y : list LayerHandle) :
  pushToBack l (removeLayers l (pushToBack l Y)) = pushToBack l Y.
Proof.
  rewrite (pushToBack_split l (removeLayers _ _)), removeLayers_filter.
  rewrite (pushToBack_split l Y).
  rewrite filter_app.
  rewrite (filter_not_elem_of_self l (pushToBack l []))
    by (intros x; by rewrite elem_of_pushToBack_nil).
  rewrite app_nil_l, !list_filter_filter. f_equal.
  apply list_filter_iff. intros x. tauto.
Qed.

Lemma removeLayers_nil (Y : list LayerHandle) : removeLayers [] Y = Y.
Proof. reflexivity. Qed.

Lemma afterSetCurrentBackground_config (index : Z) (s : DataMap) :
  config (afterSetCurrentBackground index s) = config s.
Proof. reflexivity. Qed.

Lemma afterSetCurrentBackground_effectiveIndex (index : Z) (s : DataMap) :
  effectiveIndex (afterSetCurrentBackground index s) index = effectiveIndex s index.
Proof. reflexivity. Qed.

Lemma afterSetCurrentBackground_currentLayers (index : Z) (s : DataMap) :
  currentLayers (afterSetCurrentBackground index s)
  = from_option bg_layers []
      (backgrounds (config s) !! Z.to_nat (effectiveIndex s index)).
Proof. reflexivity. Qed.

Lemma afterSetCurrentBackground_leaflet (index : Z) (s : DataMap) :
  leaflet (afterSetCurrentBackground index s)
  = (λ m, {| onMap :=
               match backgrounds (config s) !! Z.to_nat (effectiveIndex s index) with
               | Some bg => pushToBack (bg_layers bg)
                              (removeLayers (currentLayers s) (onMap m))
               | None => removeLayers (currentLayers s) (onMap m)
               end |}) <$> leaflet s.
Proof. reflexivity. Qed.

(** X6.  Selecting a background is idempotent, the order of the layers on
    the Leaflet map aside: a second call of [setCurrentBackground] with the
    same index leaves the background, the stored index and every other
    field as the first call left them, and the same layers on the Leaflet
    map, whether the calls complete or throw. *)
Theorem setCurrentBackground_idempotent (s : DataMap) (index : Z) :
  let once := exec (setCurrentBackground index) s in
  let twice := exec (setCurrentBackground index) once in
  set_leaflet None twice = set_leaflet None once
  ∧ (is_Some (leaflet twice) ↔ is_Some (leaflet once))
  ∧ ∀ x, x ∈ layersOnMap twice ↔ x ∈ layersOnMap once.
Proof.
  intros once twice.
  assert (twice = once) as ->; [|done].
  subst twice once.
  rewrite !setCurrentBackground_closed.
  unfold afterSetCurrentBackground at 1.
  rewrite afterSetCurrentBackground_effectiveIndex,
    afterSetCurrentBackground_config, afterSetCurrentBackground_currentLayers,
    afterSetCurrentBackground_leaflet.
  unfold afterSetCurrentBackground.
  destruct (backgrounds (config s) !! Z.to_nat (effectiveIndex s index)) as [bg|];
    destruct (leaflet s) as [m|];
    cbn [fmap option_fmap option_map from_option onMap];
    rewrite ?pushToBack_again, ?removeLayers_nil; reflexivity.
Qed.

(** X7.  The choice the background switch persists survives a reload: when
    the handler has completed, a map constructed over the same
    configuration with the storage the handler left, once its Leaflet map
    exists and line 356 has run, has the background and the index the
    handler had selected. *)
Theorem background_choice_restored (s : DataMap) (val : Z) (id : string)
    (filterGroups urlMarker : option string) :
  (onBackgroundSwitchChange val s).1 = Normal tt →
  let chosen := exec (onBackgroundSwitchChange val) s in
  let reloaded :=
    exec (createLeaflet ;; restoreBackground)
      (new_DataMap id filterGroups urlMarker (storage chosen) (config s)) in
  backgroundIndex reloaded = backgroundIndex chosen
  ∧ background reloaded = background chosen.
Proof.
  intros Hdone chosen reloaded.
  assert (storage chosen !! "background" = Some val
          ∧ backgroundIndex chosen = effectiveIndex s val
          ∧ background chosen
            = backgrounds (config s) !! Z.to_nat (effectiveIndex s val))
    as (Hst & Hidx & Hbg).
  { subst chosen. unfold exec, onBackgroundSwitchChange, bind, modify in *.
    pose proof (setCurrentBackground_backgroundIndex val s) as Hi.
    pose proof (setCurrentBackground_background val s) as Hb.
    unfold exec in Hi, Hb.
    destruct (setCurrentBackground val s) as [[[]|e] s']; [|done].
    cbn [snd storage set_storage backgroundIndex background] in *.
    split; [apply lookup_insert_eq|done]. }
  subst reloaded.
  set (ready := set_leaflet (Some {| onMap := [] |})
                  (new_DataMap id filterGroups urlMarker (storage chosen) (config s))).
  assert (exec (createLeaflet ;; restoreBackground)
            (new_DataMap id filterGroups urlMarker (storage chosen) (config s))
          = exec (setCurrentBackground val) ready) as ->.
  { unfold exec, bind, createLeaflet, modify. cbv beta iota.
    rewrite restoreBackground_unfold.
    change (storage (set_leaflet (Some {| onMap := [] |})
                       (new_DataMap id filterGroups urlMarker (storage chosen)
                          (config s))))
      with (storage chosen).
    by rewrite Hst. }
  rewrite setCurrentBackground_backgroundIndex, setCurrentBackground_background.
  by rewrite Hidx, Hbg.
Qed.

Lemma background_choice_restored_witness :
  backgroundIndex
    (exec (createLeaflet ;; restoreBackground)
       (new_DataMap "again" None None
          (storage (exec (onBackgroundSwitchChange 1) (sampleMapReady None)))
          (config (sampleMapReady None))))
  = backgroundIndex (exec (onBackgroundSwitchChange 1) (sampleMapReady None))
  ∧ background
      (exec (createLeaflet ;; restoreBackground)
         (new_DataMap "again" None None
            (storage (exec (onBackgroundSwitchChange 1) (sampleMapReady None)))
            (config (sampleMapReady None))))
    = background (exec (onBackgroundSwitchChange 1) (sampleMapReady None)).
Proof.
  apply (background_choice_restored (sampleMapReady None) 1 "again" None None).
  vm_compute. reflexivity.
Defined.

(** ** Ingestion before the Leaflet map exists *)

Section Deferred.

Context {driver : StorageDriver}.

Lemma timerFires_waiting (s : DataMap) (markers : MarkerData) :
  leaflet s = None → timers s = [markers] → exec timerFires s = s.
Proof.
  intros Hl Ht. unfold exec, timerFires, bind at 1, get. rewrite Ht.
  unfold bind, modify, waitForLeaflet, bind, get.
  cbn [leaflet set_timers timers]. rewrite Hl. cbn [snd set_timers timers app].
  destruct s; simpl in *. by subst.
Qed.

Lemma timerFires_waiting_iter (s : DataMap) (markers : MarkerData) (polls : nat) :
  leaflet s = None → timers s = [markers] →
  Nat.iter polls (exec timerFires) s = s.
Proof.
  intros Hl Ht. induction polls as [|k IH]; [done|].
  simpl. rewrite IH. by apply (timerFires_waiting s markers).
Qed.

Lemma timerFires_ready (s : DataMap) (markers : MarkerData)
    (rest : list MarkerData) (m : LeafletMap) :
  leaflet s = Some m → timers s = markers :: rest →
  timerFires s = ingest markers (set_timers rest s).
Proof.
  intros Hl Ht. unfold timerFires, bind at 1, get. rewrite Ht.
  unfold bind at 1, modify, waitForLeaflet, bind at 1, get.
  cbn [leaflet set_timers]. by rewrite Hl.
Qed.

Lemma streamMarkersIn_ready (s : DataMap) (markers : MarkerData) (m : LeafletMap) :
  leaflet s = Some m →
  streamMarkersIn (Resolved false markers) s = ingest markers s.
Proof.
  intros Hl. unfold streamMarkersIn, waitForLeaflet, bind at 1, get.
  by rewrite Hl.
Qed.

(** X8.  A payload streamed in before the Leaflet map exists is not lost:
    it waits on its timer however often the timer polls in vain, and the
    first poll after the Leaflet map was created ingests it, with the
    outcome the same request has on a map whose Leaflet map already
    existed. *)
Theorem streamMarkersIn_deferred (s : DataMap) (markers : MarkerData)
    (polls : nat) :
  leaflet s = None →
  timers s = [] →
  let waiting :=
    Nat.iter polls (exec timerFires)
      (exec (streamMarkersIn (Resolved false markers)) s) in
  lm_members (layerManager waiting) = lm_members (layerManager s)
  ∧ callbacks waiting = callbacks s
  ∧ timerFires (exec createLeaflet waiting)
    = streamMarkersIn (Resolved false markers) (exec createLeaflet s).
Proof.
  intros Hl Ht waiting.
  assert (waiting = set_timers [markers] s) as ->.
  { subst waiting. unfold exec at 2. rewrite (streamMarkersIn_waits s markers Hl).
    rewrite Ht. cbn [snd app].
    by apply (timerFires_waiting_iter _ markers). }
  split; [done|]. split; [done|].
  rewrite (timerFires_ready _ markers [] {| onMap := [] |}) by reflexivity.
  rewrite (streamMarkersIn_ready _ markers {| onMap := [] |}) by reflexivity.
  f_equal. destruct s; simpl in *. by subst.
Qed.

End Deferred.

Lemma streamMarkersIn_deferred_witness :
  timerFires
    (exec createLeaflet
       (Nat.iter 3 (exec timerFires)
          (exec (streamMarkersIn (Resolved false knownPayload)) (sampleMap None))))
  = streamMarkersIn (Resolved false knownPayload)
      (exec createLeaflet (sampleMap None)).
Proof.
  apply (streamMarkersIn_deferred (sampleMap None) knownPayload 3);
    reflexivity.
Defined.

(** ** Nothing is ever unregistered *)

Lemma registeredStill_refl (s : DataMap) : registeredStill s s.
Proof. split; reflexivity. Qed.

Lemma registeredStill_trans (s1 s2 s3 : DataMap) :
  registeredStill s1 s2 → registeredStill s2 s3 → registeredStill s1 s3.
Proof. intros [? ?] [? ?]. split; etrans; done. Qed.

Lemma keepsRegistered_ret {A} (a : A) : keepsRegistered (ret a).
Proof. intros s. apply registeredStill_refl. Qed.

Lemma keepsRegistered_throw {A} (e : JSError) : keepsRegistered (@throw A e).
Proof. intros s. apply registeredStill_refl. Qed.

Lemma keepsRegistered_get : keepsRegistered get.
Proof. intros s. apply registeredStill_refl. Qed.

Lemma keepsRegistered_modify (f : DataMap → DataMap) :
  (∀ s, registeredStill s (f s)) → keepsRegistered (modify f).
Proof. intros Hf s. apply Hf. Qed.

Lemma keepsRegistered_bind {A B} (c : Action A) (k : A → Action B) :
  keepsRegistered c → (∀ a, keepsRegistered (k a)) → keepsRegistered (bind c k).
Proof.
  intros Hc Hk s. unfold bind. specialize (Hc s).
  destruct (c s) as [[a|e] s1]; [|done].
  eapply registeredStill_trans; [exact Hc|apply Hk].
Qed.

Lemma keepsRegistered_forEach {A} (f : A → Action unit) (l : list A) :
  (∀ x, keepsRegistered (f x)) → keepsRegistered (forEach f l).
Proof.
  intros Hf. induction l as [|x l IH]; simpl.
  - apply keepsRegistered_ret.
  - apply keepsRegistered_bind; [apply Hf|]. intros _. apply IH.
Qed.

Ltac keepsRegistered_step :=
  first
    [ apply keepsRegistered_ret
    | apply keepsRegistered_throw
    | apply keepsRegistered_get
    | apply keepsRegistered_modify; intros ?; split;
        cbn [layerManager set_layerManager set_storage set_background
             set_backgroundIndex set_leaflet set_openedPopups set_callbacks
             set_timers lm_members lm_layers lm_register lm_addMember];
        first [reflexivity | by eexists | set_solver]
    | apply keepsRegistered_bind; [|intros ?]
    | apply keepsRegistered_forEach; intros ?
    | match goal with
      | |- keepsRegistered (match ?x with _ => _ end) => destruct x
      end
    | progress cbv zeta ].

Lemma perform_keepsRegistered {driver : StorageDriver} (op : Operation) :
  keepsRegistered (perform op).
Proof.
  destruct op; cbn [perform];
    unfold createLeaflet, restoreBackground, onBackgroundSwitchChange,
      setCurrentBackground, layer_remove, layer_addToBack,
      streamMarkersIn, timerFires, waitForLeaflet, ingest, instantiateMarkers,
      placeMarker, onMarkerReady;
    repeat keepsRegistered_step.
Qed.

(** X9.  No operation of the controller takes a marker away from the layer
    manager or makes it forget a layer: after any sequence of operations,
    completed or thrown, the members registered before are the first
    members, in their order, and every layer known before is known. *)
Theorem operations_keep_registered {driver : StorageDriver}
    (s : DataMap) (ops : list Operation) :
  registeredStill s (foldl (λ s op, exec (perform op) s) s ops).
Proof.
  revert s. induction ops as [|op ops IH]; intros s.
  - apply registeredStill_refl.
  - simpl. eapply registeredStill_trans; [|apply IH].
    apply perform_keepsRegistered.
Qed.

(** ** Ingesting again *)

Section Again.

Context {driver : StorageDriver}.

(** X10.  Ingestion does not replace the markers of an earlier ingestion:
    ingesting a payload of known buckets a second time registers every one
    of its markers a second time, after those of the first. *)
Theorem instantiateMarkers_twice (s : DataMap) (data : MarkerData) :
  Forall (knownBucket s) data →
  lm_members (layerManager
    (exec (instantiateMarkers data) (exec (instantiateMarkers data) s)))
  = lm_members (layerManager s) ++ payloadMarkers s data ++ payloadMarkers s data.
Proof.
  intros Hknown. unfold exec.
  rewrite (instantiateMarkers_known data s Hknown). cbn [snd].
  rewrite instantiateMarkers_known by exact Hknown. cbn [snd].
  cbn [layerManager ingesting set_openedPopups set_layerManager lm_members].
  by rewrite <- app_assoc.
Qed.

Lemma lm_layers_foldl_register (names : list string) (lm : MarkerLayerManager)
    (name : string) :
  name ∈ lm_layers (foldl (λ lm name, lm_register name lm) lm names)
  ↔ name ∈ lm_layers lm ∨ name ∈ names.
Proof.
  revert lm. induction names as [|n names IH]; intros lm; simpl.
  - set_solver.
  - rewrite IH. simpl. set_solver.
Qed.

Lemma elem_of_payload_layers (data : MarkerData) (name : string) :
  name ∈ concat ((λ entry : string * list Instance, JS.split JS.space entry.1) <$> data)
  ↔ ∃ entry, entry ∈ data ∧ name ∈ JS.split JS.space entry.1.
Proof.
  induction data as [|e data IH].
  - simpl. split; [by intros ?%elem_of_nil|]. intros (entry & ?%elem_of_nil & _). done.
  - rewrite fmap_cons. simpl. rewrite elem_of_app, IH. split.
    + intros [H|(entry & Hin & H)].
      * exists e. split; [left|done].
      * exists entry. split; [by right|done].
    + intros (entry & Hin & H). apply elem_of_cons in Hin as [->|Hin].
      * by left.
      * right. by exists entry.
Qed.

Lemma unpack_preserves_layers (data : MarkerData) :
  preserves (λ s, lm_layers (layerManager s)) (forEach unpackBucket data).
Proof.
  unfold unpackBucket, placeMarker, onMarkerReady. repeat preserves_step.
Qed.

(** X11.  The layers of a payload are registered before any of its markers
    is created, and they stay registered when ingestion then fails: after
    [instantiateMarkers], completed or thrown, the known layers are those
    known before and every layer named in a key of the payload. *)
Theorem instantiateMarkers_registers_all_layers (s : DataMap)
    (data : MarkerData) (name : string) :
  name ∈ lm_layers (layerManager (exec (instantiateMarkers data) s))
  ↔ name ∈ lm_layers (layerManager s)
    ∨ ∃ entry, entry ∈ data ∧ name ∈ JS.split JS.space entry.1.
Proof.
  unfold exec. rewrite instantiateMarkers_unfold. unfold bind.
  rewrite forEach_registerBucket.
  pose proof (unpack_preserves_layers data
                (set_layerManager (registerAll data (layerManager s)) s)) as Hkeep.
  destruct (forEach unpackBucket data
              (set_layerManager (registerAll data (layerManager s)) s))
    as [[[]|e] s']; cbn [snd] in *; rewrite Hkeep;
    cbn [layerManager set_layerManager]; unfold registerAll;
    rewrite lm_layers_foldl_register, elem_of_payload_layers; done.
Qed.

End Again.

Lemma instantiateMarkers_twice_witness :
  length (lm_members (layerManager
    (exec (instantiateMarkers knownPayload)
       (exec (instantiateMarkers knownPayload) (sampleMapReady None)))))
  = 4%nat.
Proof.
  rewrite (instantiateMarkers_twice (sampleMapReady None) knownPayload).
  - vm_compute. reflexivity.
  - unfold knownPayload.
    repeat (constructor; [right; vm_compute; eauto|]). constructor.
Defined.

(** ** Start-up registration of the groups *)

Lemma registerGroup_run (g : string) (grp : Group) (s : DataMap) :
  registerGroup (g, grp) s
  = (Normal tt,
     if truthy_string (markerIcon grp)
     then set_leafletIcons
            (<[g := {| iconUrl := default EmptyString (markerIcon grp);
                       iconSize := size grp |}]> (leafletIcons s))
            (set_layerManager (lm_register g (layerManager s)) s)
     else set_layerManager (lm_register g (layerManager s)) s).
Proof.
  unfold registerGroup, bind, modify. cbn [fst snd].
  by destruct (truthy_string (markerIcon grp)).
Qed.

Lemma forEach_registerGroup (l : list (string * Group)) (s : DataMap) :
  NoDup l.*1 →
  ∃ s', forEach registerGroup l s = (Normal tt, s')
    ∧ (∀ g, g ∈ lm_layers (layerManager s')
            ↔ g ∈ lm_layers (layerManager s) ∨ g ∈ l.*1)
    ∧ (∀ g grp, (g, grp) ∈ l → truthy_string (markerIcon grp) = true →
         leafletIcons s' !! g
         = Some {| iconUrl := default EmptyString (markerIcon grp);
                   iconSize := size grp |})
    ∧ (∀ g, g ∉ l.*1 → leafletIcons s' !! g = leafletIcons s !! g).
Proof.
  revert s. induction l as [|[g0 grp0] l IH]; intros s Hnodup.
  - exists s. repeat split; try done; set_solver.
  - rewrite fmap_cons in Hnodup. apply NoDup_cons in Hnodup as [Hfresh Hnodup].
    cbn [forEach]. unfold bind. rewrite registerGroup_run.
    match goal with
    | |- context [forEach registerGroup l ?s1] =>
        destruct (IH s1 Hnodup) as (s' & -> & Hlayers & Hicons & Hother);
        assert (∀ g, g ∈ lm_layers (layerManager s1)
                     ↔ g ∈ lm_layers (layerManager s) ∨ g = g0) as Hl1
          by (intros g; destruct (truthy_string (markerIcon grp0)); simpl;
              set_solver);
        assert (∀ g, g ≠ g0 → leafletIcons s1 !! g = leafletIcons s !! g) as Ho1
          by (intros g Hg; destruct (truthy_string (markerIcon grp0)); simpl;
              [by rewrite lookup_insert_ne|done]);
        assert (truthy_string (markerIcon grp0) = true →
                leafletIcons s1 !! g0
                = Some {| iconUrl := default EmptyString (markerIcon grp0);
                          iconSize := size grp0 |}) as Hi1
          by (intros ->; simpl; by rewrite lookup_insert_eq)
    end.
    exists s'. split; [done|]. split; [|split].
    + intros g. rewrite Hlayers, Hl1, fmap_cons, elem_of_cons. simpl. tauto.
    + intros g grp Hin Htruthy. apply elem_of_cons in Hin as [[= -> ->]|Hin].
      * rewrite Hother by done. by apply Hi1.
      * by apply (Hicons g grp).
    + intros g Hg. rewrite fmap_cons in Hg. simpl in Hg.
      apply not_elem_of_cons in Hg as [Hne Hg].
      rewrite Hother by done. by apply Ho1.
Qed.

(** X12.  The start-up loop over the configured groups completes; after it
    every configured group is a known layer, every group with an icon has
    its icon object prepared from its own image and size, icons under other
    names are as before, and the marker constructed for a placement of such
    a group carries that icon. *)
Theorem registerGroups_prepares_icons {driver : StorageDriver} (s : DataMap) :
  ∃ s', registerGroups s = (Normal tt, s')
    ∧ (∀ g grp, groups (config s) !! g = Some grp →
         g ∈ lm_layers (layerManager s'))
    ∧ (∀ g grp, groups (config s) !! g = Some grp →
         truthy_string (markerIcon grp) = true →
         leafletIcons s' !! g
         = Some {| iconUrl := default EmptyString (markerIcon grp);
                   iconSize := size grp |}
         ∧ ∀ markerType instance,
             ∃ dismissed,
               m_options (constructMarker s' markerType g grp instance)
               = IconMarker
                   (Some {| iconUrl := default EmptyString (markerIcon grp);
                            iconSize := size grp |}) dismissed)
    ∧ (∀ g, groups (config s) !! g = None →
         leafletIcons s' !! g = leafletIcons s !! g).
Proof.
  unfold registerGroups, bind, get.
  destruct (forEach_registerGroup (map_to_list (groups (config s))) s)
    as (s' & Hrun & Hlayers & Hicons & Hother).
  { apply NoDup_fst_map_to_list. }
  exists s'. split; [done|]. split; [|split].
  - intros g grp Hg. apply Hlayers. right.
    apply list_elem_of_fmap. exists (g, grp). split; [done|].
    by apply elem_of_map_to_list.
  - intros g grp Hg Htruthy.
    assert (leafletIcons s' !! g
            = Some {| iconUrl := default EmptyString (markerIcon grp);
                      iconSize := size grp |}) as Hicon
      by (apply Hicons; [by apply elem_of_map_to_list|done]).
    split; [done|]. intros markerType instance.
    unfold constructMarker. cbn [m_options]. rewrite Htruthy, Hicon. by eexists.
  - intros g Hg. apply Hother. intros Hin.
    apply list_elem_of_fmap in Hin as ([g' grp] & -> & Hin).
    apply elem_of_map_to_list in Hin. simpl in Hg. congruence.
Qed.

Lemma registerGroups_prepares_icons_witness :
  ∃ s', registerGroups (sampleMapReady None) = (Normal tt, s')
    ∧ leafletIcons s' !! "chest"
      = Some {| iconUrl := "chest.png"; iconSize := (#32)%js |}.
Proof.
  destruct (registerGroups_prepares_icons (sampleMapReady None))
    as (s' & Hrun & _ & Hicons & _).
  exists s'. split; [exact Hrun|].
  destruct (Hicons "chest" chest) as [Hicon _].
  - vm_compute. reflexivity.
  - reflexivity.
  - exact Hicon.
Defined.

(** ** Group filters, from the page to the query *)

Lemma split_nonempty (sep : Ascii.ascii) (s : string) : JS.split sep s ≠ [].
Proof.
  destruct s as [|c rest]; simpl; [done|].
  destruct (Ascii.eqb c sep); [done|].
  by destruct (JS.split sep rest).
Qed.

Lemma Array_join_cons (sep x : string) (l : list string) :
  l ≠ [] → Array_join sep (x :: l) = x +:+ sep +:+ Array_join sep l.
Proof. by destruct l. Qed.

(** Joining the pieces of a string with the separator gives the string
    back. *)
Lemma join_split (sep : Ascii.ascii) (s : string) :
  Array_join (String sep EmptyString) (JS.split sep s) = s.
Proof.
  induction s as [|c rest IH]; [done|].
  pose proof (split_nonempty sep rest) as Hne.
  cbn [JS.split]. destruct (Ascii.eqb c sep) eqn:E.
  - apply Ascii.eqb_eq in E as ->.
    rewrite Array_join_cons by done. rewrite IH. reflexivity.
  - destruct (JS.split sep rest) as [|p ps] eqn:Es; [done|].
    destruct ps as [|p' ps].
    + simpl in *. by rewrite IH.
    + rewrite Array_join_cons by done.
      rewrite Array_join_cons in IH by done. rewrite <- IH. reflexivity.
Qed.

(** X13.  The group filter of the page reaches the API unchanged: when
    [$root.data( 'filter-groups' )] is a non-empty string, the query built
    from the map's data set filters carries that string, character for
    character, as its [filter]; when the attribute is missing or empty the
    query carries no [filter].  (An attribute jQuery converts to a value of
    another type is not a string by the time the constructor reads it.) *)
Theorem streamQuery_filter_roundtrip (id pageName : string) (version : option Z)
    (filterGroups urlMarker : option string) (stored : MapStorage)
    (config : Config) :
  q_filter
    (streamQuery pageName version
       (dataSetFilters (new_DataMap id filterGroups urlMarker stored config)))
  = match filterGroups with
    | Some EmptyString | None => None
    | Some attribute => Some attribute
    end.
Proof.
  destruct filterGroups as [[|c rest]|]; [done| |done].
  cbn [new_DataMap dataSetFilters streamQuery q_filter]. f_equal.
  apply (join_split JS.pipe).
Qed.

(** ** Marker popups *)

Lemma prefix_wrapped (d : string) :
  String.prefix "<p>" ("<p>" +:+ d +:+ "</p>") = true.
Proof.
  simpl. repeat (destruct (Ascii.ascii_dec _ _); [|congruence]). by destruct d.
Qed.

(** X14.  Building a popup again changes nothing: [build] wraps a
    description that does not start with a paragraph tag once and stores it
    back into the slots, so a second build on the slots the first one left
    appends the same elements and leaves the same slots. *)
Theorem build_again (ctx : PopupContext) (slots : Slots) :
  build ctx (build ctx slots).2 = build ctx slots.
Proof.
  unfold build. cbn [snd uid label desc image article].
  destruct (desc slots) as [[|c d]|]; [reflexivity| |reflexivity].
  cbn [truthy_string].
  destruct (String.prefix "<p>" (String c d)) eqn:Hp.
  - cbn [truthy_string]. by rewrite Hp.
  - rewrite prefix_wrapped. reflexivity.
Qed.

(** The first piece of a split has no separator; the string is that piece
    alone exactly when it has no separator, and otherwise the piece, a
    separator and a rest whose pieces are the other pieces. *)
Lemma split_head (sep : Ascii.ascii) (s : string) :
  ∃ p ps, JS.split sep s = p :: ps
    ∧ contains sep p = false
    ∧ (ps = [] → s = p ∧ contains sep s = false)
    ∧ (ps ≠ [] → contains sep s = true
                 ∧ ∃ rest, s = p +:+ String sep rest ∧ JS.split sep rest = ps).
Proof.
  induction s as [|c s IH].
  - exists EmptyString, []. split; [done|]. split; [done|]. split; done.
  - destruct IH as (p & ps & Hsplit & Hp & Hnil & Hcons).
    cbn [JS.split contains]. destruct (Ascii.eqb c sep) eqn:E.
    + apply Ascii.eqb_eq in E as ->.
      exists EmptyString, (p :: ps).
      split; [by rewrite Hsplit|]. split; [done|]. split; [done|].
      intros _. split; [done|]. exists s. by rewrite Hsplit.
    + rewrite Hsplit. exists (String c p), ps. cbn [contains]. rewrite E, Hp.
      split; [done|]. split; [done|]. split.
      * intros Hps. destruct (Hnil Hps) as [<- Hfree]. by rewrite Hfree.
      * intros Hps. destruct (Hcons Hps) as [Hsep (rest & -> & Hrest)].
        split; [done|]. by exists rest.
Qed.

(** X15.  The related-article link of a popup never points to a page name
    with a [|] in it.  An article without [|] is the target itself, under
    the default text; an article with one is cut at its first [|]: the
    target is what stands before it, and the text is what stands between it
    and the next [|] or the end. *)
Theorem relatedArticle_target (slotArticle groupArticle : option string)
    (defaultText target text : string) :
  relatedArticle slotArticle groupArticle defaultText = Some (target, text) →
  contains JS.pipe target = false
  ∧ ∃ a, (if truthy_string slotArticle then slotArticle else groupArticle) = Some a
       ∧ ((a = target ∧ text = defaultText)
          ∨ (contains JS.pipe text = false
             ∧ (a = target +:+ "|" +:+ text
                ∨ ∃ more, a = target +:+ "|" +:+ text +:+ "|" +:+ more))).
Proof.
  unfold relatedArticle.
  destruct (if truthy_string slotArticle then slotArticle else groupArticle)
    as [a|]; [|done].
  destruct (truthy_string (Some a)); [|done].
  destruct (split_head JS.pipe a) as (p & ps & Hsplit & Hp & Hnil & Hcons).
  destruct (contains JS.pipe a) eqn:Ha.
  - rewrite Hsplit. destruct ps as [|p2 ps]; [destruct (Hnil eq_refl); congruence|].
    destruct (Hcons ltac:(done)) as [_ (rest & -> & Hrest)].
    cbn [take lookup list_lookup default from_option]. intros [= <- <-].
    split; [done|]. eexists. split; [done|]. right.
    destruct (split_head JS.pipe rest) as (q & qs & Hsplit2 & Hq & Hnil2 & Hcons2).
    rewrite Hrest in Hsplit2. injection Hsplit2 as -> ->.
    split; [done|].
    destruct qs as [|q2 qs].
    + left. by destruct (Hnil2 eq_refl) as [-> _].
    + right. destruct (Hcons2 ltac:(done)) as [_ (more & -> & _)].
      exists more. reflexivity.
  - intros [= <- <-]. split; [done|]. exists a. split; [done|]. by left.
Qed.

Lemma relatedArticle_target_witness :
  contains JS.pipe "Gold ore" = false
  ∧ ∃ a, (if truthy_string (Some "Gold ore|Read more|ignored")
          then Some "Gold ore|Read more|ignored" else None) = Some a
       ∧ ((a = "Gold ore" ∧ "Read more" = "See also")
          ∨ (contains JS.pipe "Read more" = false
             ∧ (a = "Gold ore" +:+ "|" +:+ "Read more"
                ∨ ∃ more, a = "Gold ore" +:+ "|" +:+ "Read more" +:+ "|" +:+ more))).
Proof.
  apply (relatedArticle_target (Some "Gold ore|Read more|ignored") None
           "See also" "Gold ore" "Read more").
  vm_compute. reflexivity.
Defined.

(** ** The outcome of an ingestion *)

Section Outcome.

Context {driver : StorageDriver}.

(** Either every bucket is placeable, or there is a first one that is
    not. *)
Lemma first_unplaceable_bucket (s : DataMap) (data : MarkerData) :
  Forall (placeableBucket s) data
  ∨ ∃ before entry after,
      data = before ++ entry :: after
      ∧ Forall (placeableBucket s) before
      ∧ lookupGroup (config s) (groupNameOf entry.1) = None
      ∧ entry.2 ≠ [].
Proof.
  induction data as [|entry data IH]; [by left|].
  destruct (lookupGroup (config s) (groupNameOf entry.1)) as [g|] eqn:Hg.
  - destruct IH as [Hall|(before & e & after & -> & Hbefore & Hnone & Hne)].
    + left. constructor; [right; by rewrite Hg|done].
    + right. exists (entry :: before), e, after. split; [done|].
      split; [|done]. constructor; [right; by rewrite Hg|done].
  - destruct entry.2 as [|instance placements] eqn:Hplacements.
    + destruct IH as [Hall|(before & e & after & -> & Hbefore & Hnone & Hne)].
      * left. constructor; [by left|done].
      * right. exists (entry :: before), e, after. split; [done|].
        split; [|done]. constructor; [by left|done].
    + right. exists [], entry, data. split; [done|]. split; [constructor|].
      split; [done|]. by rewrite Hplacements.
Qed.

(** X17.  [instantiateMarkers] completes exactly when, for every bucket of
    the payload that has placements, line 148 finds something under the
    name of its group: a configured group, or a member every object
    inherits, such as [toString], on which the circle branch runs.  A bucket
    without placements never makes it fail, whatever its key.  Otherwise it
    throws a [TypeError]. *)
Theorem instantiateMarkers_completes_iff (s : DataMap) (data : MarkerData) :
  ((instantiateMarkers data s).1 = Normal tt ↔ Forall (placeableBucket s) data)
  ∧ ((instantiateMarkers data s).1 = Throw TypeError
     ↔ ¬ Forall (placeableBucket s) data).
Proof.
  assert (instantiateMarkers data s
          = forEach unpackBucket data
              (ingesting s (registerAll data (layerManager s)) (openedPopups s)))
    as ->.
  { rewrite instantiateMarkers_unfold. unfold bind.
    by rewrite forEach_registerBucket. }
  generalize (registerAll data (layerManager s)). intros lm.
  destruct (first_unplaceable_bucket s data)
    as [Hall|(before & entry & after & -> & Hbefore & Hnone & Hne)].
  - destruct (forEach_unpackBucket_placeable s data lm (openedPopups s) Hall)
      as (lm' & opened' & ->).
    cbn [fst]. split; split; done.
  - assert (¬ Forall (placeableBucket s) (before ++ entry :: after)) as Hnot.
    { intros Hall. apply Forall_app in Hall as [_ Hall].
      apply Forall_cons in Hall as [[Hempty|[g Hg]] _]; congruence. }
    assert ((forEach unpackBucket (before ++ entry :: after)
               (ingesting s lm (openedPopups s))).1 = Throw TypeError) as ->.
    { rewrite forEach_app. unfold bind at 1.
      destruct (forEach_unpackBucket_placeable s before lm (openedPopups s) Hbefore)
        as (lm' & opened' & ->).
      cbn [forEach]. unfold bind at 1.
      by rewrite (unpackBucket_unknown (ingesting s lm' opened') entry). }
    split; split; done.
Qed.

(** At most one element of a list passes a test that pins down a value the
    elements do not share. *)
Lemma filter_unique {A B} (f : A → B) (P : A → bool) (v : B) (l : list A) :
  NoDup (f <$> l) →
  (∀ x, x ∈ l → P x = true → f x = v) →
  (length (filter (λ x, P x) l) ≤ 1)%nat.
Proof.
  induction l as [|x l IH]; intros Hnodup Hv; [simpl; lia|].
  rewrite fmap_cons in Hnodup. apply NoDup_cons in Hnodup as [Hfresh Hnodup].
  rewrite filter_cons. destruct (decide (P x)) as [HP|HP].
  - assert (filter (λ x, P x) l = []) as ->; [|simpl; lia].
    apply Is_true_true in HP.
    destruct (filter (λ x, P x) l) as [|y ys] eqn:Hf; [done|].
    assert (y ∈ filter (λ x, P x) l) as Hy by (rewrite Hf; left).
    apply list_elem_of_filter in Hy as [HPy Hy]. apply Is_true_true in HPy.
    exfalso. apply Hfresh. rewrite (Hv x) by (done || left).
    rewrite <- (Hv y) by (done || by right).
    by apply list_elem_of_fmap_2.
  - apply IH; [done|]. intros y Hy. apply Hv. by right.
Qed.

Lemma deepLinkedMarkers_none (s : DataMap)
    (members : list (string * LeafletMarker)) :
  markerIdToAutoOpen s = None → deepLinkedMarkers s members = [].
Proof.
  intros Hreq. unfold deepLinkedMarkers.
  induction members as [|km members IH]; [done|].
  rewrite fmap_cons, filter_cons_False; [exact IH|].
  unfold deepLinkedb. rewrite Hreq. intros H. exact H.
Qed.

(** X18.  When the placements of a payload of known buckets have different
    stable keys, an ingestion opens at most one popup. *)
Theorem instantiateMarkers_opens_at_most_one (s : DataMap) (data : MarkerData) :
  Forall (knownBucket s) data →
  NoDup ((λ m, stableKey (m_type m) (m_instance m))
           <$> (payloadMarkers s data).*2) →
  ∃ opened,
    openedPopups (exec (instantiateMarkers data) s) = openedPopups s ++ opened
    ∧ (length opened ≤ 1)%nat.
Proof.
  intros Hknown Hnodup. unfold exec.
  rewrite (instantiateMarkers_known data s Hknown).
  exists (deepLinkedMarkers s (payloadMarkers s data)). split; [done|].
  unfold deepLinkedMarkers.
  destruct (markerIdToAutoOpen s) as [requested|] eqn:Hreq.
  - apply (filter_unique (λ m, stableKey (m_type m) (m_instance m))
             (λ m, deepLinkedb s (m_type m) (m_instance m)) (VString requested));
      [done|].
    intros m _ Hm. apply deepLinkedb_spec in Hm as (r & Hr & Hkey).
    congruence.
  - fold (deepLinkedMarkers s (payloadMarkers s data)).
    rewrite (deepLinkedMarkers_none s _ Hreq). simpl. lia.
Qed.

End Outcome.

Lemma instantiateMarkers_opens_at_most_one_witness :
  ∃ opened,
    openedPopups (exec (instantiateMarkers knownPayload)
                    (sampleMapReady (Some "gold-1")))
    = openedPopups (sampleMapReady (Some "gold-1")) ++ opened
    ∧ (length opened ≤ 1)%nat.
Proof.
  apply (instantiateMarkers_opens_at_most_one (sampleMapReady (Some "gold-1"))
           knownPayload).
  - unfold knownPayload.
    repeat (constructor; [right; vm_compute; eauto|]). constructor.
  - vm_compute. repeat constructor; set_solver.
Defined.
